(** * dashboard.py: the README parser and the tool filter

    A shallow embedding of [parse_readme] and of the filtering block of
    [main] from [dashboard.py], with the properties of the catalogue
    parser and of the query/filter engine stated over it.

    Python strings are sequences of Unicode code points; a string is
    modelled as a list of code points, so that [len], slicing and the
    whitespace class of [str.strip] and of the regular expression [\s]
    are the ones Python uses. *)

From Stdlib Require Import NArith Ascii String List Lia.
From stdpp Require Import gmap list strings sorting.

Local Open Scope N_scope.
Local Open Scope list_scope.
Local Open Scope nat_scope.

(** ** Strings *)

Definition char := N.
Definition pystr := list char.

(** A literal of the source, given as its ASCII characters. *)
Definition str (s : string) : pystr :=
  List.map N_of_ascii (list_ascii_of_string s).

Abbreviation LF := 10%N (only parsing).
Abbreviation SP := 32%N (only parsing).
Abbreviation QUOTE := 34%N (only parsing).
Abbreviation HASH := 35%N (only parsing).
Abbreviation LPAREN := 40%N (only parsing).
Abbreviation RPAREN := 41%N (only parsing).
Abbreviation DASH := 45%N (only parsing).
Abbreviation LBRACK := 91%N (only parsing).
Abbreviation RBRACK := 93%N (only parsing).

(** [str.isspace] on one code point, which is also the class [\s] of a
    [str] pattern: CPython's [_PyUnicode_IsWhitespace]. *)
Definition isspace (c : char) : bool :=
  ((9 <=? c) && (c <=? 13) || (28 <=? c) && (c <=? 32)
   || (c =? 133) || (c =? 160) || (c =? 5760)
   || (8192 <=? c) && (c <=? 8202)
   || (c =? 8232) || (c =? 8233) || (c =? 8239) || (c =? 8287)
   || (c =? 12288))%N.

Section Scanning.
Context {A : Type}.

Fixpoint take_while (p : A -> bool) (l : list A) : list A :=
  match l with
  | x :: l' => if p x then x :: take_while p l' else []
  | [] => []
  end.

Fixpoint drop_while (p : A -> bool) (l : list A) : list A :=
  match l with
  | x :: l' => if p x then drop_while p l' else l
  | [] => []
  end.
End Scanning.

(** [s.startswith(p)] *)
Fixpoint startswith (p s : pystr) : bool :=
  match p, s with
  | [], _ => true
  | a :: p', b :: s' => (a =? b)%N && startswith p' s'
  | _ :: _, [] => false
  end.

(** [p in s] on strings: [p] occurs in [s] as a contiguous run. *)
Fixpoint contains (p s : pystr) : bool :=
  startswith p s || match s with [] => false | _ :: s' => contains p s' end.

Definition lstrip (s : pystr) : pystr := drop_while isspace s.
Definition rstrip (s : pystr) : pystr := rev (drop_while isspace (rev s)).
(** [s.strip()] *)
Definition strip (s : pystr) : pystr := rstrip (lstrip s).

(** Puts a character in front of the first piece of a split. *)
Definition push (c : char) (pieces : list pystr) : list pystr :=
  match pieces with
  | piece :: rest => (c :: piece) :: rest
  | [] => [[c]]
  end.

(** [re.split(r'\n## ', content)]: the pieces between the successive
    leftmost occurrences of the four characters newline, '#', '#',
    space. *)
Fixpoint re_split_sections (content : pystr) : list pystr :=
  match content with
  | [] => [[]]
  | LF :: HASH :: HASH :: SP :: rest => [] :: re_split_sections rest
  | c :: rest => push c (re_split_sections rest)
  end.

(** [section.split('\n')] *)
Fixpoint split_lines (section : pystr) : list pystr :=
  match section with
  | [] => [[]]
  | LF :: rest => [] :: split_lines rest
  | c :: rest => push c (split_lines rest)
  end.

Definition neqb (a b : char) : bool := negb (a =? b)%N.

(** [re.match(r'^([^#\n]+)', line)]: group 1 when the pattern matches. *)
Definition category_match (line : pystr) : option pystr :=
  match take_while (fun c => neqb c HASH && neqb c LF) line with
  | [] => None
  | g => Some g
  end.

(** [s.removeprefix]-like helper: the rest of [s] after the literal [p],
    when [s] starts with it. *)
Fixpoint after_literal (p s : pystr) : option pystr :=
  match p, s with
  | [], _ => Some s
  | a :: p', b :: s' => if (a =? b)%N then after_literal p' s' else None
  | _ :: _, [] => None
  end.

(** The optional anchor of the entry pattern, [<a name=Q([^Q]+)Q>] with Q
    the double quote: the captured name and the text after the tag. *)
Definition anchor_match (s : pystr) : option (pystr * pystr) :=
  match after_literal (str "<a name=" ++ [QUOTE]) s with
  | Some s1 =>
      match take_while (fun c => neqb c QUOTE) s1 with
      | [] => None
      | g1 =>
          match after_literal (QUOTE :: str ">") (drop_while (fun c => neqb c QUOTE) s1) with
          | Some s2 => Some (g1, s2)
          | None => None
          end
      end
  | None => None
  end.

(** [\[([^\]]+)\]\(([^)]+)\)]: the two captures and the text after the
    closing parenthesis. *)
Definition link_match (s : pystr) : option (pystr * pystr * pystr) :=
  match s with
  | LBRACK :: s1 =>
      match take_while (fun c => neqb c RBRACK) s1,
            drop_while (fun c => neqb c RBRACK) s1 with
      | (_ :: _) as g2, RBRACK :: LPAREN :: s2 =>
          match take_while (fun c => neqb c RPAREN) s2,
                drop_while (fun c => neqb c RPAREN) s2 with
          | (_ :: _) as g3, RPAREN :: s3 => Some (g2, g3, s3)
          | _, _ => None
          end
      | _, _ => None
      end
  | _ => None
  end.

(** [re.match(tool_pattern, line)] for the entry pattern
    [^-\s*(?:<a name=Q([^Q]+)Q>)?\[([^\]]+)\]\(([^)]+)\)] (Q the double quote).
    The result holds group 1 ([None] when the optional anchor did not take
    part in the match), groups 2 and 3, and [line[tool_match.end():]].  The
    optional group is tried first and skipped when the match cannot be
    completed with it. *)
Definition tool_match (line : pystr)
  : option (option pystr * pystr * pystr * pystr) :=
  match line with
  | DASH :: s0 =>
      let s1 := drop_while isspace s0 in
      let with_anchor :=
        match anchor_match s1 with
        | Some (g1, s2) =>
            match link_match s2 with
            | Some (g2, g3, rest) => Some (Some g1, g2, g3, rest)
            | None => None
            end
        | None => None
        end in
      match with_anchor with
      | Some m => Some m
      | None =>
          match link_match s1 with
          | Some (g2, g3, rest) => Some (None, g2, g3, rest)
          | None => None
          end
      end
  | _ => None
  end.

(** [re.sub(r'<details>.*', '', description, flags=re.DOTALL)]: with
    DOTALL the first match runs to the end of the string, so what is left
    is the text before the first [<details>]. *)
Fixpoint sub_details (description : pystr) : pystr :=
  match description with
  | [] => []
  | c :: rest =>
      if startswith (str "<details>") description then []
      else c :: sub_details rest
  end.

(** [sep.join(pieces)] *)
Fixpoint join (sep : pystr) (pieces : list pystr) : pystr :=
  match pieces with
  | [] => []
  | [piece] => piece
  | piece :: rest => piece ++ sep ++ join sep rest
  end.

(** A document given by its lines: the lines joined by newlines. *)
Definition unlines (ls : list pystr) : pystr := join [LF] ls.

(** ** Tool records *)

(** The dictionary [tool_info] built for one entry. *)
Record tool_info := {
  name : pystr;
  url : pystr;
  category : pystr;
  description : pystr;
  id : pystr
}.

(** The description before the length cap: the text after the link,
    stripped, without a leading dash-and-space separator, and cut at the
    first details tag. *)
Definition clean_description (rest : pystr) : pystr :=
  let description := strip rest in
  let description :=
    if startswith (str "- ") description
    then strip (drop 2 description) else description in
  sub_details description.

(** [description[:300] + '...' if len(description) > 300 else description] *)
Definition truncate (description : pystr) : pystr :=
  if 300 <? length description
  then take 300 description ++ str "..." else description.

(** [g or ''] for a group [g] that is [None] or a string. *)
Definition or_empty (g : option pystr) : pystr :=
  match g with
  | Some ((_ :: _) as s) => s
  | _ => []
  end.

Definition make_tool_info (current_category : pystr)
    (m : option pystr * pystr * pystr * pystr) : tool_info :=
  let '(g1, g2, g3, rest) := m in
  let tool_id := or_empty g1 in
  let tool_name := g2 in
  let tool_url := g3 in
  let description := truncate (clean_description rest) in
  {| name := tool_name; url := tool_url; category := current_category;
     description := description; id := tool_id |}.

(** ** The state of [parse_readme] *)

(** The local variables the try block updates.  [categories] is the
    [defaultdict(list)]: a key exists once something was appended under
    it. *)
Record locals := {
  tools : list tool_info;
  categories : gmap pystr (list tool_info);
  current_category : pystr
}.

Definition set_current_category (c : pystr) (st : locals) : locals :=
  {| tools := tools st; categories := categories st; current_category := c |}.

(** The body of the inner loop for one line: on a match, the record is
    appended to [tools] and to [categories[current_category]]. *)
Definition scan_line (line : pystr) (st : locals) : locals :=
  match tool_match line with
  | Some m =>
      let info := make_tool_info (current_category st) m in
      let bucket := default [] (categories st !! current_category st) in
      {| tools := tools st ++ [info];
         categories := <[current_category st := bucket ++ [info]]> (categories st);
         current_category := current_category st |}
  | None => st
  end.

Definition excluded : list pystr :=
  [str "Table of content"; str "How to View This README"].

(** ** Exceptions *)

(** An exception, by the text [str(e)] of its message. *)
Definition exn := pystr.

Inductive outcome (A : Type) :=
| Returns (a : A)
| Raises (e : exn).
Arguments Returns {A} a.
Arguments Raises {A} e.

(** What the try block runs on: the local variables and the number of
    steps taken so far.  A raise leaves the variables as they are at that
    point, which is what the handler finds. *)
Record machine := { vars : locals; clock : nat }.

Definition M (A : Type) : Type := machine -> outcome A * machine.

#[export] Instance M_ret : MRet M := fun A a w => (Returns a, w).
#[export] Instance M_bind : MBind M := fun A B f m w =>
  match m w with
  | (Returns a, w') => f a w'
  | (Raises e, w') => (Raises e, w')
  end.

Definition raise {A} (e : exn) : M A := fun w => (Raises e, w).
Definition get : M locals := fun w => (Returns (vars w), w).
Definition modify (f : locals -> locals) : M unit :=
  fun w => (Returns tt, {| vars := f (vars w); clock := clock w |}).

Fixpoint for_each {A} (l : list A) (body : A -> M unit) : M unit :=
  match l with
  | [] => mret tt
  | x :: l' => body x ;; for_each l' body
  end.

(** What [open] and [f.read()] give: the decoded text, or the exception
    of a missing or undecodable file. *)
Inductive read_result :=
| ReadOk (content : pystr)
| ReadFail (e : exn).

Section ParseReadme.
(** [fault n] is the exception, if any, that the run time raises at the
    [n]-th step of the try block (a memory error in a library call, for
    instance). *)
Variable fault : nat -> option exn.

Definition tick : M unit := fun w =>
  match fault (clock w) with
  | Some e => (Raises e, w)
  | None => (Returns tt, {| vars := vars w; clock := S (clock w) |})
  end.

Definition read (fs : read_result) : M pystr :=
  match fs with
  | ReadOk content => mret content
  | ReadFail e => raise e
  end.

(** The try block.  Each [tick] is a point where the run time may raise:
    once the file is read, at every pass of the outer loop and at every
    pass of the inner loop. *)
Definition try_body (fs : read_result)
  : M (list tool_info * gmap pystr (list tool_info)) :=
  content ← read fs;
  tick;;
  let sections := re_split_sections content in
  modify (set_current_category (str "General"));;
  for_each sections (fun section =>
    tick;;
    let lines := split_lines section in
    match lines with
    | [] => mret tt
    | first :: _ =>
        match category_match first with
        | Some g => modify (set_current_category (strip g))
        | None => mret tt
        end;;
        st ← get;
        if decide (current_category st ∈ excluded) then mret tt
        else for_each lines (fun line => tick;; modify (scan_line line))
    end);;
  st ← get;
  mret (tools st, categories st).

(** [tools = []], [categories = defaultdict(list)]; [current_category]
    is not bound before the try block assigns it. *)
Definition initial : machine :=
  {| vars := {| tools := []; categories := ∅; current_category := [] |};
     clock := 0 |}.

(** [parse_readme()]: the messages passed to [st.error] and the pair
    returned. *)
Definition parse_readme (fs : read_result)
  : list pystr * (list tool_info * gmap pystr (list tool_info)) :=
  match try_body fs initial with
  | (Returns result, _) => ([], result)
  | (Raises e, _) => ([str "Error parsing README: " ++ e], ([], ∅))
  end.
End ParseReadme.

Definition no_fault : nat -> option exn := fun _ => None.

(** The parser on a document that was read, when nothing raises. *)
Definition parse (content : pystr)
  : list tool_info * gmap pystr (list tool_info) :=
  (parse_readme no_fault (ReadOk content)).2.

Definition example_document : pystr :=
  unlines [str "## Aligners";
           str "- [ToolA](http://a.example) - Fast aligner for short reads";
           str "- [ToolB](http://b.example) Handles long reads too";
           str "## Table of content";
           str "- [Ignored](http://x.example) should not appear"].

(** ** The loops as folds

    What one pass of the outer loop, and the whole double loop, do to the
    local variables when nothing raises.  [parse_scan] below shows that
    [parse] computes exactly this. *)

(** The category name a section's first line gives, if any. *)
Definition heading_name (section : pystr) : option pystr :=
  match split_lines section with
  | first :: _ => strip <$> category_match first
  | [] => None
  end.

Definition scan_section (section : pystr) (st : locals) : locals :=
  match split_lines section with
  | [] => st
  | first :: _ =>
      let st1 :=
        match category_match first with
        | Some g => set_current_category (strip g) st
        | None => st
        end in
      if decide (current_category st1 ∈ excluded) then st1
      else foldl (fun s line => scan_line line s) st1 (split_lines section)
  end.

Definition start : locals :=
  {| tools := []; categories := ∅; current_category := str "General" |}.

Definition scan_sections (sections : list pystr) (st : locals) : locals :=
  foldl (fun s section => scan_section section s) st sections.

(** ** The filter of [main] *)

Section Filter.
(** [str.lower], the Unicode lower-casing of the run time. *)
Variable lower : pystr -> pystr.

(** The condition of the first comprehension. *)
Definition text_match (search_query : pystr) (t : tool_info) : bool :=
  contains (lower search_query) (lower (name t))
  || contains (lower search_query) (lower (description t))
  || contains (lower search_query) (lower (category t)).

(** The block of [main] that computes [filtered_tools]. *)
Definition filter_tools (tools : list tool_info)
    (search_query selected_category : pystr) : list tool_info :=
  let filtered_tools := tools in
  let filtered_tools :=
    match search_query with
    | _ :: _ => List.filter (text_match search_query) filtered_tools
    | [] => filtered_tools
    end in
  let filtered_tools :=
    if decide (selected_category ≠ str "All")
    then List.filter (fun t => bool_decide (category t = selected_category))
                     filtered_tools
    else filtered_tools in
  filtered_tools.

(** The inclusion rule in the words of the specification: the text
    predicate and the category predicate, taken together. *)
Definition text_predicate (query : pystr) (t : tool_info) : bool :=
  bool_decide (lower query = [])
  || contains (lower query) (lower (name t))
  || contains (lower query) (lower (description t))
  || contains (lower query) (lower (category t)).

Definition category_predicate (c : pystr) (t : tool_info) : bool :=
  bool_decide (c = str "All") || bool_decide (category t = c).

Definition included (query c : pystr) (t : tool_info) : bool :=
  text_predicate query t && category_predicate c t.
End Filter.

(** Lower-casing on the ASCII letters, for the examples. *)
Definition ascii_lower (s : pystr) : pystr :=
  List.map (fun c => if (65 <=? c)%N && (c <=? 90)%N then (c + 32)%N else c) s.

(** ** The entry pattern, declaratively

    The lines the entry pattern matches at their start, with what each
    group captures and what follows the match. *)
Definition lacks (c : char) (s : pystr) : Prop := Forall (fun x => x ≠ c) s.

Definition anchor_tag (name : pystr) : pystr :=
  str "<a name=" ++ [QUOTE] ++ name ++ [QUOTE] ++ str ">".

Inductive entry_shape
  : pystr -> option pystr -> pystr -> pystr -> pystr -> Prop :=
| entry_plain ws g2 g3 rest :
    Forall (fun c => isspace c = true) ws ->
    g2 ≠ [] -> lacks RBRACK g2 ->
    g3 ≠ [] -> lacks RPAREN g3 ->
    entry_shape
      ([DASH] ++ ws ++ [LBRACK] ++ g2 ++ [RBRACK; LPAREN] ++ g3 ++ [RPAREN] ++ rest)
      None g2 g3 rest
| entry_anchored ws g1 g2 g3 rest :
    Forall (fun c => isspace c = true) ws ->
    g1 ≠ [] -> lacks QUOTE g1 ->
    g2 ≠ [] -> lacks RBRACK g2 ->
    g3 ≠ [] -> lacks RPAREN g3 ->
    entry_shape
      ([DASH] ++ ws ++ anchor_tag g1 ++ [LBRACK] ++ g2 ++ [RBRACK; LPAREN]
         ++ g3 ++ [RPAREN] ++ rest)
      (Some g1) g2 g3 rest.

(** ** The flat list, declaratively

    The records a section contributes, read off the loops: the section
    takes the name its first line gives, or keeps the current one; unless
    that name is excluded, every line the entry pattern matches gives one
    record, in line order. *)

Definition line_entry (c : pystr) (line : pystr) : option tool_info :=
  make_tool_info c <$> tool_match line.

Definition section_category (current : pystr) (section : pystr) : pystr :=
  default current (heading_name section).

Definition section_entries (current : pystr) (section : pystr) : list tool_info :=
  let c := section_category current section in
  if decide (c ∈ excluded) then [] else omap (line_entry c) (split_lines section).

Fixpoint document_entries (current : pystr) (sections : list pystr)
  : list tool_info :=
  match sections with
  | [] => []
  | section :: rest =>
      section_entries current section
        ++ document_entries (section_category current section) rest
  end.

(** ** The rest of [main] *)

(** The order of Python on strings: code point by code point, a proper
    prefix before the longer string. *)
Fixpoint str_leb (a b : pystr) : bool :=
  match a, b with
  | [], _ => true
  | _ :: _, [] => false
  | x :: a', y :: b' => (x <? y)%N || (x =? y)%N && str_leb a' b'
  end.

Definition str_le (a b : pystr) : Prop := str_leb a b = true.

#[export] Instance str_le_dec : RelDecision str_le :=
  fun a b => decide (str_leb a b = true).

(** [["All"] + sorted(list(categories.keys()))], the options of the
    category select box. *)
Definition all_categories (categories : gmap pystr (list tool_info))
  : list pystr :=
  str "All" :: merge_sort str_le (elements (dom categories)).

(** The number shown in the third box: [len(tools)], or
    [len(categories.get(selected_category, []))] when a category is
    selected. *)
Definition filtered_count (tools : list tool_info)
    (categories : gmap pystr (list tool_info)) (selected_category : pystr) : nat :=
  let filtered_count := length tools in
  if decide (selected_category ≠ str "All")
  then length (default [] (categories !! selected_category))
  else filtered_count.

(** One card of the board: the name, [description[:100] + '...'] and the
    url. *)
Record kanban_card := {
  card_name : pystr;
  card_snippet : pystr;
  card_url : pystr
}.

Inductive view_mode := Cards | Table | KanbanBoard.

(** What a view draws: the tools given to [display_tool_card], the rows
    of the data frame restricted to its four columns (name, category,
    description, url), or the columns of the board. *)
Inductive rendering :=
| CardList (shown : list tool_info)
| TableGrid (rows : list (pystr * pystr * pystr * pystr))
| Board (columns : list (pystr * list kanban_card)).

(** The numbers of the sidebar and of the three boxes, and the options
    of the select box. *)
Record stats := {
  total_tools : nat;
  total_categories : nat;
  showing : nat;
  options : list pystr
}.

Inductive page :=
| NoToolsFound
| NoMatch (s : stats)
| Showing (s : stats) (count : nat) (view : rendering).

Section Main.
(** [str.lower], and [list(set(xs))]: the distinct elements of [xs] in
    the iteration order of the set. *)
Variable lower : pystr -> pystr.
Variable set_list : list pystr -> list pystr.

Definition kanban_categories (filtered_tools : list tool_info)
    (selected_category : pystr) : list pystr :=
  if decide (selected_category = str "All")
  then take 6 (set_list (List.map category filtered_tools))
  else [selected_category].

Definition kanban_column (filtered_tools : list tool_info) (c : pystr)
  : list kanban_card :=
  let category_tools :=
    List.filter (fun t => bool_decide (category t = c)) filtered_tools in
  List.map (fun tool =>
              {| card_name := name tool;
                 card_snippet := take 100 (description tool) ++ str "...";
                 card_url := url tool |})
           (take 10 category_tools).

Definition kanban_board (filtered_tools : list tool_info)
    (selected_category : pystr) : list (pystr * list kanban_card) :=
  List.map (fun c => (c, kanban_column filtered_tools c))
           (kanban_categories filtered_tools selected_category).

(** [main()], given what the read gives and the values of the three
    widgets: the messages passed to [st.error] and the page drawn. *)
Definition main (fault : nat -> option exn) (fs : read_result)
    (search_query selected_category : pystr) (mode : view_mode)
  : list pystr * page :=
  let '(errors, (tools, categories)) := parse_readme fault fs in
  match tools with
  | [] =>
      (errors ++ [str "No tools found. Please check if README.md is available."],
       NoToolsFound)
  | _ :: _ =>
      let s := {| total_tools := length tools;
                  total_categories := size categories;
                  showing := filtered_count tools categories selected_category;
                  options := all_categories categories |} in
      let filtered_tools := filter_tools lower tools search_query selected_category in
      match filtered_tools with
      | [] => (errors, NoMatch s)
      | _ :: _ =>
          (errors,
           Showing s (length filtered_tools)
             match mode with
             | Cards => CardList filtered_tools
             | Table =>
                 TableGrid (List.map (fun t => (name t, category t, description t, url t))
                                     filtered_tools)
             | KanbanBoard => Board (kanban_board filtered_tools selected_category)
             end)
      end
  end.
End Main.

(** ** Predicates and documents used in the statements *)

(** [steps b m w v]: from [w] the computation [m] returns with the local
    variables [v], or, when [b] allows it, raises. *)
Definition steps (b : bool) (m : M unit) (w : machine) (v : locals) : Prop :=
  (b = true ∧ ∃ e w', m w = (Raises e, w')) ∨
  (∃ n, m w = (Returns tt, {| vars := v; clock := n |})).

(** The records of category [c], in the order of the list; no bucket when
    there is none. *)
Definition bucket (c : pystr) (l : list tool_info) : option (list tool_info) :=
  match List.filter (fun t => bool_decide (category t = c)) l with
  | [] => None
  | records => Some records
  end.

Definition indexed (st : locals) : Prop :=
  ∀ c, categories st !! c = bucket c (tools st).

Definition heading_in (sections : list pystr) (c : pystr) : Prop :=
  c = str "General" ∨ ∃ section, section ∈ sections ∧ heading_name section = Some c.

(** [t] is the record built from a line the entry pattern matches. *)
Definition from_entry (t : tool_info) : Prop :=
  ∃ line m, tool_match line = Some m ∧ t = make_tool_info (category t) m.

Definition valid (sections : list pystr) (t : tool_info) : Prop :=
  name t ≠ [] ∧ url t ≠ [] ∧ heading_in sections (category t)
  ∧ (category t ∉ excluded) ∧ from_entry t.

Definition well_formed (sections : list pystr) (st : locals) : Prop :=
  heading_in sections (current_category st) ∧ Forall (valid sections) (tools st).

Definition toolA (c : pystr) : tool_info :=
  {| name := str "ToolA"; url := str "http://a.example"; category := c;
     description := str "Fast aligner for short reads"; id := [] |}.

Definition toolB (c : pystr) : tool_info :=
  {| name := str "ToolB"; url := str "http://b.example"; category := c;
     description := str "Handles long reads too"; id := [] |}.

(** A document whose second-level heading has a blank name. *)
Definition blank_heading_document : pystr :=
  unlines [str "# Tools"; str "##  "; str "- [a](b)"].

Definition long_line : pystr := str "- [a](b) " ++ repeat 97%N 301.

Definition toc_only_document : pystr :=
  unlines [str "## Table of content";
           str "- [Ignored](http://x.example) should not appear"].

(** The run-time fault that raises [e] at step [n] and nowhere else. *)
Definition fault_at (n : nat) (e : exn) : nat -> option exn :=
  fun k => if k =? n then Some e else None.

(** Further documents for the examples. *)
Definition details_document : pystr :=
  unlines [str "# Tools"; str "## Callers";
           str "- [HiCCUPS](http://h.example) - loops <details><summary>more</summary>"].

Definition toc_carried_document : pystr :=
  unlines [str "# Tools"; str "## Table of content"; str "- [Aligners](#aligners)";
           str "## #"; str "- [Hidden](http://h.example) under a heading without text";
           str "## Aligners"; str "- [ToolA](http://a.example) - Fast aligner for short reads"].

Definition prose_document : pystr :=
  unlines [str "# Tools"; str ""; str "## Introduction";
           str "Some prose about [a link](http://p.example)."; str "- a plain item"].

Definition board_tools : list tool_info :=
  [toolA (str "Aligners"); toolB (str "Callers"); toolB (str "Aligners")].

Definition parenthesis_document : pystr :=
  unlines [str "# Tools"; str "## Reading";
           str "- [Hi-C](https://w.example/Hi-C_(genomics)) the method"].

Definition trailing_hash_document : pystr :=
  unlines [str "# Tools"; str "##   Peak callers ## "; str "- [a](b)"].

(** * Properties *)

Example split_ex :
  re_split_sections (unlines [str "a"; str "## b"; str "## c"]) = [str "a"; str "b"; str "c"].
Proof. vm_compute. reflexivity. Qed.

(** ** Scanning lemmas *)

Section ScanningFacts.
Context {A : Type} (p : A -> bool).

Lemma take_drop_while l : take_while p l ++ drop_while p l = l.
Proof. induction l as [|x l IH]; simpl; [done|]. destruct (p x); simpl; congruence. Qed.

Lemma take_while_all l : Forall (fun x => p x = true) (take_while p l).
Proof.
  induction l as [|x l IH]; simpl; [constructor|].
  destruct (p x) eqn:E; by constructor.
Qed.

Lemma drop_while_stops l x r : drop_while p l = x :: r -> p x = false.
Proof.
  induction l as [|y l IH]; simpl; [done|].
  destruct (p y) eqn:E; [done|]. by intros [= -> ->].
Qed.

(** A run of accepted elements followed by a rejected one is split
    exactly there. *)
Lemma take_while_run a x r :
  Forall (fun y => p y = true) a -> p x = false ->
  take_while p (a ++ x :: r) = a.
Proof.
  intros Ha Hx. induction Ha as [|y a Hy _ IH]; simpl.
  - by rewrite Hx.
  - by rewrite Hy, IH.
Qed.

Lemma drop_while_run a x r :
  Forall (fun y => p y = true) a -> p x = false ->
  drop_while p (a ++ x :: r) = x :: r.
Proof.
  intros Ha Hx. induction Ha as [|y a Hy _ IH]; simpl.
  - by rewrite Hx.
  - by rewrite Hy.
Qed.
End ScanningFacts.

Lemma neqb_true a b : neqb a b = true <-> a ≠ b.
Proof. unfold neqb. rewrite negb_true_iff. apply N.eqb_neq. Qed.

Lemma neqb_refl a : neqb a a = false.
Proof. unfold neqb. by rewrite N.eqb_refl. Qed.

Lemma lacks_neqb c s : lacks c s <-> Forall (fun x => neqb x c = true) s.
Proof. unfold lacks. apply Forall_proper; [|done]. intros x. by rewrite neqb_true. Qed.

Lemma after_literal_spec p s r : after_literal p s = Some r <-> s = p ++ r.
Proof.
  revert s. induction p as [|a p IH]; intros s; simpl.
  - split; congruence.
  - destruct s as [|b s]; [split; discriminate|].
    destruct (N.eqb_spec a b) as [->|Hne].
    + rewrite IH. split; congruence.
    + split; [discriminate|]. intros [= ? _]. done.
Qed.

Lemma startswith_spec p s : startswith p s = true <-> ∃ r, s = p ++ r.
Proof.
  revert s. induction p as [|a p IH]; intros s; simpl.
  - split; eauto.
  - destruct s as [|b s]; [split; [discriminate|intros [? [=]]]|].
    rewrite andb_true_iff, N.eqb_eq, IH. split.
    + intros [-> [r ->]]. eauto.
    + intros [r [= -> ->]]. eauto.
Qed.

Lemma contains_spec p s : contains p s = true <-> ∃ l r, s = l ++ p ++ r.
Proof.
  induction s as [|c s IH]; simpl.
  - rewrite orb_false_r, startswith_spec. split.
    + intros [r ->]. by exists [], r.
    + intros [l [r H]]. destruct l; [eauto|done].
  - rewrite orb_true_iff, startswith_spec, IH. split.
    + intros [[r ->]|[l [r ->]]]; [by exists [], r|by exists (c :: l), r].
    + intros [[|x l] [r H]]; simpl in H; [eauto|].
      injection H as -> ->. eauto.
Qed.

Lemma contains_nil s : contains [] s = true.
Proof. by destruct s. Qed.

(** ** The two splits *)

Lemma split_lines_cons c s :
  split_lines (c :: s) =
  if (c =? LF)%N then [] :: split_lines s else push c (split_lines s).
Proof.
  destruct (N.eqb_spec c LF) as [->|H]; [done|].
  simpl. repeat case_match; congruence.
Qed.

Lemma re_split_sections_cons c s :
  re_split_sections (c :: s) =
  match after_literal (LF :: str "## ") (c :: s) with
  | Some rest => [] :: re_split_sections rest
  | None => push c (re_split_sections s)
  end.
Proof.
  destruct (after_literal _ (c :: s)) as [rest|] eqn:E.
  - apply after_literal_spec in E. by rewrite E.
  - simpl. repeat case_match; try done; subst; by vm_compute in E.
Qed.

Lemma split_lines_nonempty s : split_lines s ≠ [].
Proof.
  destruct s as [|c s]; [done|]. rewrite split_lines_cons.
  destruct (c =? LF)%N; [done|]. by destruct (split_lines s).
Qed.

Lemma re_split_sections_nonempty s : re_split_sections s ≠ [].
Proof.
  destruct s as [|c s]; [done|]. rewrite re_split_sections_cons.
  destruct (after_literal _ _); [done|]. by destruct (re_split_sections s).
Qed.

Lemma join_push sep c pieces :
  pieces ≠ [] -> join sep (push c pieces) = c :: join sep pieces.
Proof. by destruct pieces as [|p [|q l]]. Qed.

(** The lines of a section, joined by newlines, are the section. *)
Lemma split_lines_join s : join [LF] (split_lines s) = s.
Proof.
  induction s as [|c s IH]; [done|]. rewrite split_lines_cons.
  destruct (N.eqb_spec c LF) as [->|H].
  - pose proof (split_lines_nonempty s).
    simpl. destruct (split_lines s); [done|]. by rewrite <- IH.
  - by rewrite join_push, IH by apply split_lines_nonempty.
Qed.

(** The sections of a document, joined by the heading marker, are the
    document. *)
Lemma re_split_sections_join s :
  join (LF :: str "## ") (re_split_sections s) = s.
Proof.
  induction s as [s IH] using (induction_ltof1 _ (@length char)).
  destruct s as [|c s]; [done|]. rewrite re_split_sections_cons.
  destruct (after_literal _ (c :: s)) as [rest|] eqn:E.
  - apply after_literal_spec in E. rewrite E.
    pose proof (re_split_sections_nonempty rest).
    assert (Hr : join (LF :: str "## ") (re_split_sections rest) = rest).
    { apply IH. unfold ltof. rewrite E. simpl. lia. }
    simpl. destruct (re_split_sections rest); [done|]. by rewrite <- Hr.
  - rewrite join_push by apply re_split_sections_nonempty.
    f_equal. apply IH. unfold ltof. simpl. lia.
Qed.

(** No line of a section holds a newline. *)
Lemma split_lines_no_newline s : Forall (lacks LF) (split_lines s).
Proof.
  induction s as [|c s IH]; [by repeat constructor|].
  rewrite split_lines_cons. destruct (N.eqb_spec c LF) as [->|H].
  - constructor; [constructor|done].
  - destruct (split_lines s) as [|p ps]; simpl.
    + by repeat constructor.
    + apply Forall_cons in IH as [Hp Hps]. constructor; [by constructor|done].
Qed.

(** No section of a document holds the heading marker: the document is
    cut at every occurrence of it. *)
Lemma re_split_sections_no_marker s :
  Forall (fun p => contains (LF :: str "## ") p = false) (re_split_sections s).
Proof.
  induction s as [s IH] using (induction_ltof1 _ (@length char)).
  destruct s as [|c s]; [by repeat constructor|].
  rewrite re_split_sections_cons.
  destruct (after_literal _ (c :: s)) as [rest|] eqn:E.
  - constructor; [done|]. apply IH. apply after_literal_spec in E.
    unfold ltof. rewrite E. simpl. lia.
  - assert (Hs : Forall (fun p => contains (LF :: str "## ") p = false)
                   (re_split_sections s)) by (apply IH; unfold ltof; simpl; lia).
    pose proof (re_split_sections_join s) as J.
    pose proof (re_split_sections_nonempty s) as Hne.
    destruct (re_split_sections s) as [|p ps]; [done|].
    apply Forall_cons in Hs as [Hp Hps]. constructor; [|done].
    change (contains (LF :: str "## ") (c :: p))
      with (startswith (LF :: str "## ") (c :: p) || contains (LF :: str "## ") p).
    rewrite Hp, orb_false_r.
    destruct (startswith _ (c :: p)) eqn:F; [|done].
    apply startswith_spec in F as [r F].
    assert (K : ∃ k, s = p ++ k).
    { destruct ps; [exists []; by rewrite app_nil_r|eexists; by rewrite <- J]. }
    destruct K as [k ->].
    assert (E' : after_literal (LF :: str "## ") (c :: p ++ k) = Some (r ++ k)).
    { apply after_literal_spec. rewrite app_comm_cons, F. by rewrite <- app_assoc. }
    congruence.
Qed.

(** What [sub_details] keeps is the text before the first details tag,
    and the whole text when there is none. *)
Lemma sub_details_cut d r :
  contains (str "<details>") d = false ->
  sub_details (d ++ str "<details>" ++ r) = d.
Proof.
  induction d as [|c d IH]; intros H; [done|].
  change (contains (str "<details>") (c :: d))
    with (startswith (str "<details>") (c :: d) || contains (str "<details>") d) in H.
  apply orb_false_iff in H as [H1 H2].
  change (sub_details ((c :: d) ++ str "<details>" ++ r))
    with (if startswith (str "<details>") (c :: d ++ str "<details>" ++ r)
          then [] else c :: sub_details (d ++ str "<details>" ++ r)).
  destruct (startswith _ (c :: d ++ _)) eqn:F; [|by rewrite IH].
  exfalso. revert H1 F. clear.
  destruct d as [|c1 [|c2 [|c3 [|c4 [|c5 [|c6 [|c7 [|c8 d]]]]]]]];
    cbn [startswith str list_ascii_of_string List.map N_of_ascii app];
    cbn [N.eqb Pos.eqb]; rewrite ?andb_false_r, ?andb_true_r; congruence.
Qed.

Lemma sub_details_none d :
  contains (str "<details>") d = false -> sub_details d = d.
Proof.
  induction d as [|c d IH]; intros H; [done|].
  change (contains (str "<details>") (c :: d))
    with (startswith (str "<details>") (c :: d) || contains (str "<details>") d) in H.
  apply orb_false_iff in H as [H1 H2].
  change (sub_details (c :: d))
    with (if startswith (str "<details>") (c :: d) then [] else c :: sub_details d).
  by rewrite H1, IH.
Qed.

(** ** The entry pattern: the matcher against the declarative pattern *)

Lemma link_match_spec s g2 g3 rest :
  link_match s = Some (g2, g3, rest) <->
  g2 ≠ [] ∧ lacks RBRACK g2 ∧ g3 ≠ [] ∧ lacks RPAREN g3 ∧
  s = [LBRACK] ++ g2 ++ [RBRACK; LPAREN] ++ g3 ++ [RPAREN] ++ rest.
Proof.
  split.
  - unfold link_match. intros H.
    destruct s as [|c s1]; [done|].
    destruct (N.eqb_spec c LBRACK) as [->|Hc]; cycle 1.
    { exfalso. revert H. repeat case_match; congruence. }
    pose proof (take_drop_while (fun c => neqb c RBRACK) s1) as E1.
    pose proof (take_while_all (fun c => neqb c RBRACK) s1) as F1.
    destruct (take_while _ s1) as [|a g2']; [done|].
    destruct (drop_while _ s1) as [|b s2']; [done|].
    destruct (N.eqb_spec b RBRACK) as [->|Hb]; cycle 1.
    { exfalso. revert H. repeat case_match; congruence. }
    destruct s2' as [|b' s2]; [done|].
    destruct (N.eqb_spec b' LPAREN) as [->|Hb']; cycle 1.
    { exfalso. revert H. repeat case_match; congruence. }
    pose proof (take_drop_while (fun c => neqb c RPAREN) s2) as E2.
    pose proof (take_while_all (fun c => neqb c RPAREN) s2) as F2.
    destruct (take_while _ s2) as [|a' g3']; [done|].
    destruct (drop_while _ s2) as [|d s3']; [done|].
    destruct (N.eqb_spec d RPAREN) as [->|Hd]; cycle 1.
    { exfalso. revert H. repeat case_match; congruence. }
    injection H as <- <- <-.
    rewrite !lacks_neqb. repeat split; try done.
    by rewrite <- E1, <- E2.
  - intros (N2 & L2 & N3 & L3 & ->). simpl.
    apply lacks_neqb in L2, L3.
    rewrite (take_while_run _ g2 RBRACK), (drop_while_run _ g2 RBRACK)
      by (done || apply neqb_refl).
    destruct g2 as [|a g2]; [done|].
    rewrite (take_while_run _ g3 RPAREN), (drop_while_run _ g3 RPAREN)
      by (done || apply neqb_refl).
    by destruct g3.
Qed.

Lemma anchor_match_spec s g1 s2 :
  anchor_match s = Some (g1, s2) <->
  g1 ≠ [] ∧ lacks QUOTE g1 ∧ s = anchor_tag g1 ++ s2.
Proof.
  unfold anchor_match, anchor_tag. split.
  - destruct (after_literal _ s) as [s1|] eqn:E0; [|done].
    apply after_literal_spec in E0 as ->.
    pose proof (take_drop_while (fun c => neqb c QUOTE) s1) as E1.
    pose proof (take_while_all (fun c => neqb c QUOTE) s1) as F1.
    destruct (take_while _ s1) as [|a g1']; [done|].
    destruct (after_literal _ (drop_while _ s1)) as [s2'|] eqn:E2; [|done].
    apply after_literal_spec in E2. rewrite E2 in E1.
    intros [= <- <-]. rewrite lacks_neqb. repeat split; try done.
    rewrite <- E1. by rewrite <- !app_assoc.
  - intros (N1 & L1 & ->). apply lacks_neqb in L1.
    replace (after_literal _ _) with
      (Some (g1 ++ QUOTE :: str ">" ++ s2)).
    2:{ symmetry. apply after_literal_spec. by rewrite <- !app_assoc. }
    rewrite (take_while_run _ g1 QUOTE), (drop_while_run _ g1 QUOTE)
      by (done || apply neqb_refl).
    destruct g1 as [|a g1]; [done|].
    replace (after_literal _ _) with (Some s2); [done|].
    symmetry. by apply after_literal_spec.
Qed.

(** The matcher finds a match exactly on the lines of the entry pattern,
    with the same captures: the pattern admits one decomposition of a
    line at most, so the order in which the regular-expression engine
    tries the alternatives does not show. *)
Lemma tool_match_spec line g1 g2 g3 rest :
  tool_match line = Some (g1, g2, g3, rest) <-> entry_shape line g1 g2 g3 rest.
Proof.
  split.
  - unfold tool_match. intros H.
    destruct line as [|c s0]; [done|].
    destruct (N.eqb_spec c DASH) as [->|Hc]; cycle 1.
    { exfalso. revert H. repeat case_match; congruence. }
    pose proof (take_drop_while isspace s0) as E0.
    pose proof (take_while_all isspace s0) as F0.
    set (ws := take_while isspace s0) in *.
    set (s1 := drop_while isspace s0) in *.
    destruct (anchor_match s1) as [[a s2]|] eqn:EA.
    + destruct (link_match s2) as [[[n u] r]|] eqn:EL.
      * injection H as <- <- <- <-.
        apply anchor_match_spec in EA as (? & ? & EA).
        apply link_match_spec in EL as (? & ? & ? & ? & EL).
        rewrite <- E0, EA, EL. by apply entry_anchored.
      * apply anchor_match_spec in EA as (_ & _ & EA).
        rewrite EA in H. by vm_compute in H.
    + destruct (link_match s1) as [[[n u] r]|] eqn:EL; [|done].
      injection H as <- <- <- <-.
      apply link_match_spec in EL as (? & ? & ? & ? & EL).
      rewrite <- E0, EL. by apply entry_plain.
  - intros H. destruct H as [ws g2 g3 rest Hws N2 L2 N3 L3
                            |ws g1 g2 g3 rest Hws N1 L1 N2 L2 N3 L3].
    + cbn [app tool_match].
      rewrite (drop_while_run isspace ws LBRACK) by done.
      cbn [anchor_match after_literal str]. 
      replace (link_match _) with (Some (g2, g3, rest)); [done|].
      symmetry. by apply link_match_spec.
    + cbn [app tool_match]. unfold anchor_tag at 1.
      cbn [app str list_ascii_of_string List.map].
      rewrite (drop_while_run isspace ws) by done.
      replace (anchor_match _) with
        (Some (g1, [LBRACK] ++ g2 ++ [RBRACK; LPAREN] ++ g3 ++ [RPAREN] ++ rest)).
      2:{ symmetry. by apply anchor_match_spec. }
      replace (link_match _) with (Some (g2, g3, rest)); [done|].
      symmetry. by apply link_match_spec.
Qed.

Lemma tool_match_groups line g1 g2 g3 rest :
  tool_match line = Some (g1, g2, g3, rest) ->
  g2 ≠ [] ∧ g3 ≠ [] ∧ g1 ≠ Some [].
Proof.
  intros H. apply tool_match_spec in H. destruct H; naive_solver.
Qed.

(** ** Running the try block *)

Lemma ret_bind {A B} (a : A) (k : A -> M B) w : (x ← mret a; k x) w = k a w.
Proof. reflexivity. Qed.

Section Running.
Variable fault : nat -> option exn.
Variable b : bool.
Hypothesis quiet : b = false -> ∀ n, fault n = None.

Lemma ret_steps w : steps b (mret tt) w (vars w).
Proof. right. exists (clock w). by destruct w. Qed.

Lemma modify_steps f w : steps b (modify f) w (f (vars w)).
Proof. right. by exists (clock w). Qed.

Lemma tick_steps w : steps b (tick fault) w (vars w).
Proof.
  unfold steps, tick. destruct (fault (clock w)) as [e|] eqn:E.
  - left. split; [|by eauto].
    destruct b; [done|]. by rewrite quiet in E.
  - right. eauto.
Qed.

Lemma bind_steps (m k : M unit) w v1 v2 :
  steps b m w v1 ->
  (∀ w1, vars w1 = v1 -> steps b k w1 v2) ->
  steps b (m;; k) w v2.
Proof.
  intros [[Hb (e & w' & E)]|[n E]] Hk.
  - left. split; [done|]. exists e, w'.
    unfold mbind, M_bind. by rewrite E.
  - destruct (Hk {| vars := v1; clock := n |} eq_refl) as [[Hb (e & w' & E')]|[n' E']].
    + left. split; [done|]. exists e, w'.
      unfold mbind, M_bind. by rewrite E.
    + right. exists n'. unfold mbind, M_bind. by rewrite E.
Qed.

Lemma for_each_steps {A} (body : A -> M unit) (g : A -> locals -> locals) l :
  (∀ x w, steps b (body x) w (g x (vars w))) ->
  ∀ w, steps b (for_each l body) w (foldl (fun s x => g x s) (vars w) l).
Proof.
  intros Hbody. induction l as [|x l IH]; intros w; simpl.
  - apply ret_steps.
  - eapply bind_steps; [apply Hbody|].
    intros w1 <-. apply IH.
Qed.

Lemma section_steps section w :
  steps b
    (tick fault;;
     match split_lines section with
     | [] => mret tt
     | first :: _ =>
         match category_match first with
         | Some g => modify (set_current_category (strip g))
         | None => mret tt
         end;;
         st ← get;
         if decide (current_category st ∈ excluded) then mret tt
         else for_each (split_lines section)
                (fun line => tick fault;; modify (scan_line line))
     end) w (scan_section section (vars w)).
Proof.
  eapply bind_steps; [apply tick_steps|]. intros w1 <-.
  unfold scan_section.
  destruct (split_lines section) as [|first others] eqn:E.
  { apply ret_steps. }
  eapply bind_steps.
  { instantiate (1 := match category_match first with
                      | Some g => set_current_category (strip g) (vars w1)
                      | None => vars w1
                      end).
    destruct (category_match first); [apply modify_steps|apply ret_steps]. }
  intros w2 E2.
  change (steps b
    (if decide (current_category (vars w2) ∈ excluded) then mret tt
     else for_each (first :: others)
            (fun line => tick fault;; modify (scan_line line))) w2
    (if decide (current_category
                  match category_match first with
                  | Some g => set_current_category (strip g) (vars w1)
                  | None => vars w1
                  end ∈ excluded)
     then match category_match first with
          | Some g => set_current_category (strip g) (vars w1)
          | None => vars w1
          end
     else foldl (fun s line => scan_line line s)
            match category_match first with
            | Some g => set_current_category (strip g) (vars w1)
            | None => vars w1
            end (first :: others))).
  rewrite <- E2. destruct (decide _).
  - apply ret_steps.
  - apply (for_each_steps _ scan_line). intros line w3.
    eapply bind_steps; [apply tick_steps|].
    intros w4 <-. apply modify_steps.
Qed.

(** The try block on a document that was read either raises (when [b]
    allows it) or returns what the double loop leaves. *)
Lemma try_body_runs content :
  (b = true ∧ ∃ e w', try_body fault (ReadOk content) (initial) = (Raises e, w')) ∨
  (∃ w', try_body fault (ReadOk content) (initial) =
         (Returns (let st := scan_sections (re_split_sections content) start in
                   (tools st, categories st)), w')).
Proof.
  unfold try_body. cbn [read]. rewrite ret_bind.
  set (loop := for_each (re_split_sections content) _).
  assert (Hloop : ∀ w, steps b loop w
            (scan_sections (re_split_sections content) (vars w))).
  { intros w. apply (for_each_steps _ scan_section).
    intros section w'. apply section_steps. }
  assert (Hpre : steps b (tick fault;;
                          modify (set_current_category (str "General"));; loop)
                   initial (scan_sections (re_split_sections content) start)).
  { eapply bind_steps; [apply tick_steps|]. intros w1 E1.
    eapply bind_steps; [apply modify_steps|]. intros w2 E2.
    replace start with (vars w2); [apply Hloop|].
    by rewrite E2, E1. }
  destruct Hpre as [[Hb (e & w' & E)]|[n E]].
  - left. split; [done|]. exists e, w'.
    revert E. unfold mbind, M_bind, read, mret, M_ret.
    destruct (tick fault initial) as [[[]|?] ?]; [|congruence].
    destruct (modify _ _) as [[[]|?] ?]; [|congruence].
    by intros ->.
  - right. eexists.
    revert E. unfold mbind, M_bind, read, mret, M_ret.
    destruct (tick fault initial) as [[[]|?] ?]; [|congruence].
    destruct (modify _ _) as [[[]|?] ?]; [|congruence].
    by intros ->.
Qed.
End Running.

(** [parse] is the double loop run from the initial variables. *)
Lemma parse_scan content :
  parse content =
  let st := scan_sections (re_split_sections content) start in
  (tools st, categories st).
Proof.
  unfold parse, parse_readme.
  destruct (try_body_runs no_fault false (fun _ _ => eq_refl) content)
    as [[? _]|[w' E]]; [done|].
  by rewrite E.
Qed.

Lemma foldl_invariant {A B} (P : A -> Prop) (f : A -> B -> A) l a :
  P a -> (∀ a x, x ∈ l -> P a -> P (f a x)) -> P (foldl f a l).
Proof.
  revert a. induction l as [|x l IH]; intros a Ha Hf; simpl; [done|].
  apply IH.
  - apply Hf; [left|done].
  - intros a' y Hy. apply Hf. by right.
Qed.

(** ** The category index against the flat list *)

Lemma indexed_scan_line line st : indexed st -> indexed (scan_line line st).
Proof.
  intros I. unfold scan_line. destruct (tool_match line) as [m|]; [|done].
  intros c. simpl. unfold bucket. rewrite List.filter_app. simpl.
  replace (category (make_tool_info (current_category st) m))
    with (current_category st) by (by destruct m as [[[? ?] ?] ?]).
  destruct (decide (current_category st = c)) as [->|Hne].
  - rewrite lookup_insert_eq, bool_decide_eq_true_2 by done.
    rewrite (I c). unfold bucket.
    destruct (List.filter _ (tools st)); done.
  - rewrite lookup_insert_ne, bool_decide_eq_false_2, app_nil_r by done.
    apply I.
Qed.

Lemma indexed_scan_section section st :
  indexed st -> indexed (scan_section section st).
Proof.
  intros I. unfold scan_section.
  destruct (split_lines section) as [|first others]; [done|].
  assert (I1 : indexed match category_match first with
                       | Some g => set_current_category (strip g) st
                       | None => st
                       end) by (by destruct (category_match first)).
  destruct (decide _); [done|].
  apply (foldl_invariant indexed); [done|].
  intros st' line _. apply indexed_scan_line.
Qed.

Lemma indexed_scan_sections sections st :
  indexed st -> indexed (scan_sections sections st).
Proof.
  intros I. unfold scan_sections. apply (foldl_invariant indexed); [done|].
  intros st' section _. apply indexed_scan_section.
Qed.

(** ** Validity of the records *)

Lemma well_formed_scan_line sections line st :
  current_category st ∉ excluded ->
  well_formed sections st -> well_formed sections (scan_line line st).
Proof.
  intros Hex [Hc Ht]. unfold scan_line.
  destruct (tool_match line) as [[[[g1 g2] g3] rest]|] eqn:E; [|done].
  pose proof (tool_match_groups _ _ _ _ _ E) as (N2 & N3 & _).
  split; [done|]. simpl. apply Forall_app. split; [done|].
  constructor; [|constructor]. repeat split; try done.
  by exists line, (g1, g2, g3, rest).
Qed.

Lemma well_formed_scan_section sections section st :
  section ∈ sections ->
  well_formed sections st -> well_formed sections (scan_section section st).
Proof.
  intros Hin [Hc Ht]. unfold scan_section.
  pose proof (eq_refl (heading_name section)) as Hh. unfold heading_name at 1 in Hh.
  destruct (split_lines section) as [|first others]; [done|].
  set (st1 := match category_match first with
              | Some g => set_current_category (strip g) st
              | None => st
              end).
  assert (W1 : well_formed sections st1).
  { subst st1. destruct (category_match first) as [g|]; [|done].
    split; [|done]. right. exists section. by split. }
  destruct (decide _) as [|Hex]; [done|].
  refine (proj2 (foldl_invariant
           (fun s => current_category s = current_category st1
                     ∧ well_formed sections s) _ _ _ _ _)); [done|].
  intros s line _ [Hs Ws]. split.
  - rewrite <- Hs. unfold scan_line. by destruct (tool_match line).
  - apply well_formed_scan_line; [by rewrite Hs|done].
Qed.

Lemma well_formed_scan_sections sections :
  well_formed sections (scan_sections sections start).
Proof.
  unfold scan_sections.
  apply (foldl_invariant (well_formed sections)).
  - split; [by left|constructor].
  - intros st section Hin. by apply well_formed_scan_section.
Qed.

Lemma parse_valid content t :
  t ∈ (parse content).1 -> valid (re_split_sections content) t.
Proof.
  rewrite parse_scan. simpl. intros Ht.
  destruct (well_formed_scan_sections (re_split_sections content)) as [_ Hall].
  by apply (proj1 (Forall_forall _ _) Hall).
Qed.

(** ** The example document *)

(** C1, on the code.  The example document yields the two records ToolA
    and ToolB with the stated descriptions and no record for Ignored, but
    both under the category General: the heading on the first line of
    the document has no newline before it, so it is not a split point and
    gives no category name; there is no Aligners bucket. *)
Theorem example_document_parse :
  parse example_document =
    ([toolA (str "General"); toolB (str "General")],
     {[ str "General" := [toolA (str "General"); toolB (str "General")] ]})
  ∧ (parse example_document).2 !! str "Aligners" = None
  ∧ parse example_document ≠
      ([toolA (str "Aligners"); toolB (str "Aligners")],
       {[ str "Aligners" := [toolA (str "Aligners"); toolB (str "Aligners")] ]}).
Proof.
  assert (E : parse example_document =
    ([toolA (str "General"); toolB (str "General")],
     {[ str "General" := [toolA (str "General"); toolB (str "General")] ]})).
  { vm_compute. reflexivity. }
  split; [exact E|]. split.
  - vm_compute. reflexivity.
  - rewrite E. by intros [=].
Qed.

(** A newline at the end of the document changes nothing. *)
Example example_document_final_newline :
  parse (example_document ++ [LF]) = parse example_document.
Proof. vm_compute. reflexivity. Qed.

(** The same document after a first line that is not a heading: there
    the Aligners heading is a split point and names the category. *)
Example example_document_after_title :
  (parse (str "# Tools" ++ LF :: example_document)).1 =
    [toolA (str "Aligners"); toolB (str "Aligners")].
Proof. vm_compute. reflexivity. Qed.

(** ** Record fields *)

(** C2, as stated, fails: under a heading whose text is only white space
    the trimmed category name is the empty string, and the entry below it
    is recorded with that empty category. *)
Lemma blank_heading_category :
  (parse blank_heading_document).1 =
    [{| name := str "a"; url := str "b"; category := [];
        description := []; id := [] |}]
  ∧ ¬ (∀ t, t ∈ (parse blank_heading_document).1 ->
         name t ≠ [] ∧ url t ≠ [] ∧ category t ≠ []).
Proof.
  assert (E : (parse blank_heading_document).1 =
    [{| name := str "a"; url := str "b"; category := [];
        description := []; id := [] |}]) by (vm_compute; reflexivity).
  split; [exact E|]. intros H.
  destruct (H {| name := str "a"; url := str "b"; category := [];
                 description := []; id := [] |}) as (_ & _ & Hc).
  - rewrite E. left.
  - by apply Hc.
Qed.

(** C2, amended.  Every record of every document has a non-empty name and
    a non-empty url, and its category is the sentinel General or the
    trimmed heading text of the first line of one of the document's
    sections (empty when that text is white space only). *)
Theorem parse_record_fields content t :
  t ∈ (parse content).1 ->
  name t ≠ [] ∧ url t ≠ [] ∧
  (category t = str "General" ∨
   ∃ section, section ∈ re_split_sections content
              ∧ heading_name section = Some (category t)).
Proof.
  intros Ht. apply parse_valid in Ht as (? & ? & ? & _). by repeat split.
Qed.

Lemma parse_record_fields_witness :
  let t := toolA (str "General") in
  name t ≠ [] ∧ url t ≠ [] ∧
  (category t = str "General" ∨
   ∃ section, section ∈ re_split_sections example_document
              ∧ heading_name section = Some (category t)).
Proof.
  apply (parse_record_fields example_document (toolA (str "General"))).
  vm_compute. left.
Defined.

(** ** Truncation *)

(** C3, as stated, fails: for an entry whose description is 301 letters,
    the stored description is the first 300 of them and three dots; it is
    longer than the original, hence no prefix of it. *)
Lemma long_description_not_prefix :
  tool_match long_line = Some (None, str "a", str "b", SP :: repeat 97%N 301)
  ∧ clean_description (SP :: repeat 97%N 301) = repeat 97%N 301
  ∧ description (make_tool_info (str "General")
                   (None, str "a", str "b", SP :: repeat 97%N 301))
    = repeat 97%N 300 ++ str "..."
  ∧ ¬ (description (make_tool_info (str "General")
                      (None, str "a", str "b", SP :: repeat 97%N 301))
       `prefix_of` clean_description (SP :: repeat 97%N 301)).
Proof.
  assert (E1 : clean_description (SP :: repeat 97%N 301) = repeat 97%N 301)
    by (vm_compute; reflexivity).
  assert (E2 : description (make_tool_info (str "General")
                   (None, str "a", str "b", SP :: repeat 97%N 301))
               = repeat 97%N 300 ++ str "...") by (vm_compute; reflexivity).
  split; [vm_compute; reflexivity|]. split; [exact E1|]. split; [exact E2|].
  rewrite E1, E2. intros [k Hk]. apply (f_equal length) in Hk.
  rewrite !length_app, !repeat_length in Hk. simpl in Hk. lia.
Qed.

Lemma truncate_long d :
  300 < length d ->
  truncate d = take 300 d ++ str "..." ∧ length (truncate d) = 303.
Proof.
  intros H. unfold truncate.
  destruct (Nat.ltb_spec 300 (length d)); [|lia].
  split; [done|]. rewrite length_app, length_take.
  change (length (str "...")) with 3. lia.
Qed.

(** C3, amended.  For every entry whose description before the cap is
    longer than 300 characters, the stored description has length exactly
    303: it is the first 300 characters of that description, which are a
    prefix of it, followed by three dots. *)
Theorem truncation_law current_category line g1 g2 g3 rest :
  tool_match line = Some (g1, g2, g3, rest) ->
  300 < length (clean_description rest) ->
  let t := make_tool_info current_category (g1, g2, g3, rest) in
  length (description t) = 303
  ∧ description t = take 300 (clean_description rest) ++ str "..."
  ∧ take 300 (description t) `prefix_of` clean_description rest.
Proof.
  intros _ H. simpl.
  destruct (truncate_long _ H) as [E L]. rewrite E at 2 3.
  repeat split; [done|].
  rewrite take_app_le by (rewrite length_take; lia).
  rewrite take_take. apply prefix_take.
Qed.

Lemma truncation_law_witness :
  let t := make_tool_info (str "General")
             (None, str "a", str "b", SP :: repeat 97%N 301) in
  length (description t) = 303
  ∧ description t = take 300 (clean_description (SP :: repeat 97%N 301)) ++ str "..."
  ∧ take 300 (description t) `prefix_of` clean_description (SP :: repeat 97%N 301).
Proof.
  apply (truncation_law (str "General") long_line).
  - vm_compute. reflexivity.
  - vm_compute. lia.
Defined.

(** ** Excluded sections *)

(** C4, on the code.  A document that is only a table-of-content section
    starts with its heading, which is therefore not a split point: the
    section keeps the category General, is not skipped, and its entry is
    recorded. *)
Theorem toc_only_document_parse :
  parse toc_only_document =
    ([{| name := str "Ignored"; url := str "http://x.example";
         category := str "General"; description := str "should not appear";
         id := [] |}],
     {[ str "General" :=
          [{| name := str "Ignored"; url := str "http://x.example";
              category := str "General"; description := str "should not appear";
              id := [] |}] ]}).
Proof. vm_compute. reflexivity. Qed.

(** After any first line the same heading is a split point, and the
    section is skipped. *)
Example toc_after_first_line :
  parse (str "# Tools" ++ LF :: toc_only_document) = ([], ∅).
Proof. vm_compute. reflexivity. Qed.

(** A section whose category name is one of the two excluded names is
    skipped: it leaves the flat list and the index as they are. *)
Lemma excluded_section_skipped section st c :
  heading_name section = Some c -> c ∈ excluded ->
  tools (scan_section section st) = tools st
  ∧ categories (scan_section section st) = categories st.
Proof.
  unfold heading_name, scan_section. intros Hh Hc.
  destruct (split_lines section) as [|first others]; [done|].
  destruct (category_match first) as [g|]; [|done].
  injection Hh as <-. simpl. by rewrite decide_True.
Qed.

(** No record of any document carries an excluded category name. *)
Lemma parse_no_excluded_category content t :
  t ∈ (parse content).1 -> category t ∉ excluded.
Proof. intros Ht. by apply parse_valid in Ht as (_ & _ & _ & ? & _). Qed.

(** ** The category index *)

Lemma bucket_Some c l records :
  bucket c l = Some records ->
  records = List.filter (fun t => bool_decide (category t = c)) l ∧ records ≠ [].
Proof. unfold bucket. destruct (List.filter _ l); [done|]. by intros [= <-]. Qed.

(** C9.  The index of every document is the flat list grouped by
    category: the bucket of a name holds exactly the records of the flat
    list with that category, in the order of the flat list; a name is a
    key exactly when some record has it as category; a record is in a
    bucket exactly when the bucket is the one of its category. *)
Theorem index_partitions_tools content :
  let '(tools, categories) := parse content in
  (∀ c, categories !! c = bucket c tools)
  ∧ (∀ c, c ∈ dom categories ↔ ∃ t, t ∈ tools ∧ category t = c)
  ∧ (∀ t c records, t ∈ tools -> categories !! c = Some records ->
       (t ∈ records ↔ category t = c)).
Proof.
  rewrite parse_scan. cbv zeta.
  pose proof (indexed_scan_sections (re_split_sections content) start
                (fun c => eq_refl)) as I.
  set (st := scan_sections _ _) in *. unfold indexed in I.
  split; [exact I|]. split.
  - intros c. rewrite elem_of_dom, I. unfold bucket. split.
    + intros [records E].
      destruct (List.filter _ (tools st)) as [|t l] eqn:F; [done|].
      assert (Ht : In t (List.filter (fun t => bool_decide (category t = c)) (tools st)))
        by (rewrite F; left; done).
      apply List.filter_In in Ht as [Ht Hc].
      exists t. split; [by apply list_elem_of_In|by apply bool_decide_eq_true in Hc].
    + intros (t & Ht & Hc).
      assert (Hin : In t (List.filter (fun t => bool_decide (category t = c)) (tools st))).
      { apply List.filter_In. split; [by apply list_elem_of_In|].
        by apply bool_decide_eq_true. }
      destruct (List.filter _ (tools st)); [done|eauto].
  - intros t c records Ht E. rewrite I in E.
    apply bucket_Some in E as [-> _].
    rewrite list_elem_of_In, List.filter_In, bool_decide_eq_true.
    rewrite <- list_elem_of_In. tauto.
Qed.

(** ** The id of a record *)

(** C10.  A line of the entry pattern adds one record whose name and
    url are the captures of the link and whose id is the empty string
    when the line has no anchor tag (group 1 is [None]) and the captured
    name of the tag, as it is, when it has one. *)
Theorem entry_id line g1 g2 g3 rest st :
  entry_shape line g1 g2 g3 rest ->
  ∃ t, tools (scan_line line st) = tools st ++ [t]
       ∧ name t = g2 ∧ url t = g3
       ∧ id t = match g1 with None => [] | Some anchor => anchor end.
Proof.
  intros H. pose proof H as E. apply tool_match_spec in E.
  unfold scan_line. rewrite E. eexists. split; [reflexivity|]. simpl.
  repeat split. destruct H as [| ? [|? ?]]; done.
Qed.

Lemma entry_id_witness :
  ∃ t, tools (scan_line ([DASH] ++ [SP] ++ anchor_tag (str "hicpro")
                           ++ [LBRACK] ++ str "HiC-Pro" ++ [RBRACK; LPAREN]
                           ++ str "https://x.example" ++ [RPAREN]
                           ++ str " - pipeline") start)
         = tools start ++ [t]
       ∧ name t = str "HiC-Pro" ∧ url t = str "https://x.example"
       ∧ id t = str "hicpro".
Proof.
  apply (entry_id _ (Some (str "hicpro")) (str "HiC-Pro")
           (str "https://x.example") (str " - pipeline") start).
  apply (entry_anchored [SP]); try done;
    unfold lacks; repeat (apply Forall_cons; split; [done|]); by apply Forall_nil.
Defined.

Example entry_without_anchor :
  tools (scan_line (str "- [Juicer](https://y.example) tools") start) =
    [{| name := str "Juicer"; url := str "https://y.example";
        category := str "General"; description := str "tools"; id := [] |}].
Proof. vm_compute. reflexivity. Qed.

(** ** The filter *)

Lemma filter_filter {A} (f g : A -> bool) l :
  List.filter f (List.filter g l) = List.filter (fun x => g x && f x) l.
Proof.
  induction l as [|x l IH]; simpl; [done|].
  destruct (g x); simpl; [|done]. destruct (f x); by rewrite IH.
Qed.

Lemma filter_all {A} (f : A -> bool) l :
  (∀ x, f x = true) -> List.filter f l = l.
Proof.
  intros H. induction l as [|x l IH]; simpl; [done|]. by rewrite H, IH.
Qed.

Lemma filter_sublist {A} (f : A -> bool) l : sublist (List.filter f l) l.
Proof.
  induction l as [|x l IH]; simpl; [constructor|].
  destruct (f x); by constructor.
Qed.

Section FilterFacts.
Variable lower : pystr -> pystr.
(** The lower-casing of the empty string is the empty string. *)
Hypothesis lower_empty : lower [] = [].

Lemma text_predicate_match q t :
text_predicate lower q t = match q with [] => true | _ => text_match lower q t end.
Proof.
unfold text_predicate, text_match. destruct q as [|a q].
- by rewrite lower_empty.
- destruct (decide (lower (a :: q) = [])) as [E|E].
  + by rewrite E, !contains_nil.
  + by rewrite (bool_decide_eq_false_2 _ E).
Qed.

Lemma filter_tools_included tools q c :
filter_tools lower tools q c = List.filter (included lower q c) tools.
Proof.
unfold filter_tools, included.
assert (Hc : ∀ l, (if decide (c ≠ str "All")
                   then List.filter (fun t => bool_decide (category t = c)) l
                   else l) = List.filter (category_predicate c) l).
{ intros l. unfold category_predicate. destruct (decide (c ≠ str "All")) as [N|N].
  - apply List.filter_ext. intros t. by rewrite (bool_decide_eq_false_2 _ N).
  - symmetry. apply filter_all. intros t.
    rewrite bool_decide_eq_true_2; [done|]. by destruct (decide (c = str "All")). }
rewrite Hc. destruct q as [|a q].
- apply List.filter_ext. intros t. by rewrite text_predicate_match.
- rewrite filter_filter. apply List.filter_ext. intros t.
  by rewrite text_predicate_match.
Qed.
End FilterFacts.

(** C5.  With a lower-casing that maps the empty string to itself, the
    filter keeps exactly the records that satisfy both the text predicate
    and the category predicate, in their order: a record is in the result
    if and only if it is in the list, the lower-cased query is empty or
    occurs in its lower-cased name, description or category, and the
    selection is All or equals its category. *)
Theorem filter_conjunctive lower tools q c :
  lower [] = [] ->
  filter_tools lower tools q c = List.filter (included lower q c) tools
  ∧ ∀ t, t ∈ filter_tools lower tools q c ↔
         t ∈ tools
         ∧ (lower q = []
            ∨ contains (lower q) (lower (name t)) = true
            ∨ contains (lower q) (lower (description t)) = true
            ∨ contains (lower q) (lower (category t)) = true)
         ∧ (c = str "All" ∨ category t = c).
Proof.
  intros H. split; [by apply filter_tools_included|].
  intros t. rewrite filter_tools_included by done.
  rewrite !list_elem_of_In, List.filter_In.
  unfold included, text_predicate, category_predicate.
  rewrite andb_true_iff, !orb_true_iff, !bool_decide_eq_true. tauto.
Qed.

Lemma filter_conjunctive_witness :
  filter_tools ascii_lower [toolA (str "Aligners"); toolB (str "Callers")]
    (str "LONG") (str "Callers")
  = List.filter (included ascii_lower (str "LONG") (str "Callers"))
      [toolA (str "Aligners"); toolB (str "Callers")]
  ∧ ∀ t, t ∈ filter_tools ascii_lower
               [toolA (str "Aligners"); toolB (str "Callers")]
               (str "LONG") (str "Callers") ↔
         t ∈ [toolA (str "Aligners"); toolB (str "Callers")]
         ∧ (ascii_lower (str "LONG") = []
            ∨ contains (ascii_lower (str "LONG")) (ascii_lower (name t)) = true
            ∨ contains (ascii_lower (str "LONG")) (ascii_lower (description t)) = true
            ∨ contains (ascii_lower (str "LONG")) (ascii_lower (category t)) = true)
         ∧ (str "Callers" = str "All" ∨ category t = str "Callers").
Proof.
  apply (filter_conjunctive ascii_lower). reflexivity.
Defined.

Example filter_example :
  filter_tools ascii_lower [toolA (str "Aligners"); toolB (str "Callers")]
    (str "LONG") (str "Callers") = [toolB (str "Callers")].
Proof. vm_compute. reflexivity. Qed.

(** C6.  With the empty query and the selection All the filter returns
    the list as it is; for every query and selection the result is no
    longer than the list and is a sublist of it, its records in the
    order they have in the list. *)
Theorem filter_stable lower tools :
  filter_tools lower tools [] (str "All") = tools
  ∧ ∀ q c, length (filter_tools lower tools q c) ≤ length tools
           ∧ sublist (filter_tools lower tools q c) tools.
Proof.
  split; [done|]. intros q c.
  assert (S : sublist (filter_tools lower tools q c) tools).
  { unfold filter_tools. destruct (decide _), q;
      repeat (etrans; [apply filter_sublist|]); done. }
  split; [by apply sublist_length|done].
Qed.

(** ** Failures *)

(** C7.  When the document cannot be opened or read, [parse_readme]
    returns normally: it reports the exception through one [st.error]
    message and returns the empty list and the empty index. *)
Theorem parse_readme_unavailable fault e :
  parse_readme fault (ReadFail e) =
    ([str "Error parsing README: " ++ e], ([], ∅)).
Proof. reflexivity. Qed.

(** C8.  Whenever the try block raises, at the read or at any later
    step and whatever the variables hold at that point, [parse_readme]
    returns exactly the empty list and the empty index, with the error
    reported. *)
Theorem parse_readme_atomic fault fs e w :
  try_body fault fs initial = (Raises e, w) ->
  parse_readme fault fs = ([str "Error parsing README: " ++ e], ([], ∅)).
Proof. intros H. unfold parse_readme. by rewrite H. Qed.

(** A fault at the fifth step of the example document strikes when ToolA
    has been recorded and ToolB has not: the variables hold a one-record
    list, and the caller still gets the empty pair. *)
Lemma parse_readme_atomic_witness :
  let fault := fault_at 4 (str "out of memory") in
  (∃ w, try_body fault (ReadOk example_document) initial
          = (Raises (str "out of memory"), w)
        ∧ tools (vars w) = [toolA (str "General")])
  ∧ parse_readme fault (ReadOk example_document) =
      ([str "Error parsing README: " ++ str "out of memory"], ([], ∅)).
Proof.
  assert (H : ∃ w, try_body (fault_at 4 (str "out of memory"))
                     (ReadOk example_document) initial
                   = (Raises (str "out of memory"), w)
                   ∧ tools (vars w) = [toolA (str "General")]).
  { eexists. split; vm_compute; reflexivity. }
  split; [exact H|].
  destruct H as (w & H & _).
  exact (parse_readme_atomic _ _ _ w H).
Defined.

(** When the try block returns, whatever faults were possible, what it
    returns is the parse of the whole document: the result is never a
    part of it. *)
Lemma parse_readme_complete fault fs result w :
  try_body fault fs initial = (Returns result, w) ->
  ∃ content, fs = ReadOk content ∧ result = parse content
             ∧ parse_readme fault fs = ([], parse content).
Proof.
  intros H. destruct fs as [content|e]; [|done].
  exists content. split; [done|].
  destruct (try_body_runs fault true (fun E => False_ind _ (diff_true_false E)) content)
    as [[_ (e & w' & E)]|[w' E]]; [congruence|].
  rewrite H in E. injection E as -> _.
  rewrite parse_scan. split; [done|].
  unfold parse_readme. by rewrite H.
Qed.

(** * Further properties *)

(** ** Lines and the entry pattern *)

(** X1.  The entry pattern reads a line in one way at most: two
    decompositions of the same line have the same anchor name, link text,
    link target and trailing text. *)
Theorem entry_shape_unique line g1 g2 g3 rest g1' g2' g3' rest' :
  entry_shape line g1 g2 g3 rest ->
  entry_shape line g1' g2' g3' rest' ->
  g1 = g1' ∧ g2 = g2' ∧ g3 = g3' ∧ rest = rest'.
Proof.
  intros H H'. apply tool_match_spec in H, H'.
  rewrite H in H'. by injection H' as -> -> -> ->.
Qed.

Lemma plain_entry_example :
  entry_shape (str "- [Juicer](https://y.example) tools")
    None (str "Juicer") (str "https://y.example") (str " tools").
Proof.
  apply (entry_plain [SP] (str "Juicer") (str "https://y.example") (str " tools"));
    try done; unfold lacks;
    repeat (apply Forall_cons; split; [done|]); by apply Forall_nil.
Qed.

Lemma entry_shape_unique_witness :
  (None : option pystr) = None ∧ str "Juicer" = str "Juicer"
  ∧ str "https://y.example" = str "https://y.example" ∧ str " tools" = str " tools".
Proof.
  apply (entry_shape_unique (str "- [Juicer](https://y.example) tools")
           None (str "Juicer") (str "https://y.example") (str " tools")
           None (str "Juicer") (str "https://y.example") (str " tools"));
    apply plain_entry_example.
Defined.

(** X2.  A line changes the variables exactly when it has the shape of an
    entry: any other line (prose, a heading, a link with unbalanced
    brackets or an empty target) leaves the list, the index and the
    current category as they are, and no partial record is made. *)
Theorem line_without_entry_ignored line st :
  scan_line line st = st ↔ ¬ ∃ g1 g2 g3 rest, entry_shape line g1 g2 g3 rest.
Proof.
  unfold scan_line. split.
  - intros E (g1 & g2 & g3 & rest & H). apply tool_match_spec in H.
    rewrite H in E. apply (f_equal (fun s => length (tools s))) in E.
    simpl in E. rewrite length_app in E. simpl in E. lia.
  - intros N. destruct (tool_match line) as [[[[g1 g2] g3] rest]|] eqn:E; [|done].
    exfalso. apply N. exists g1, g2, g3, rest. by apply tool_match_spec.
Qed.

Example malformed_lines_ignored :
  List.map (fun line => tools (scan_line (str line) start))
    ["- [name(http://u)"; "- [name] (http://u)"; "- [](http://u)";
     "- [name]()"; "* [name](http://u)"; " - [name](http://u)";
     "- <a name=x>[name](http://u)"; "- text [name](http://u)"]
  = [[]; []; []; []; []; []; []; []].
Proof. vm_compute. reflexivity. Qed.

(** ** The two splits, both ways *)

(** X3.  Joining the sections of a document with the heading marker
    (newline, two hashes, space) gives the document back, and no section
    holds the marker: the document is cut at every marker and nothing is
    lost. *)
Theorem sections_round_trip content :
  join (LF :: str "## ") (re_split_sections content) = content
  ∧ Forall (fun section => contains (LF :: str "## ") section = false)
      (re_split_sections content).
Proof. split; [apply re_split_sections_join|apply re_split_sections_no_marker]. Qed.

(** X4.  Joining the lines of a section with newlines gives the section
    back, there is always at least one line, and no line holds a
    newline. *)
Theorem lines_round_trip section :
  join [LF] (split_lines section) = section
  ∧ split_lines section ≠ []
  ∧ Forall (lacks LF) (split_lines section).
Proof.
  split; [apply split_lines_join|].
  split; [apply split_lines_nonempty|apply split_lines_no_newline].
Qed.

(** ** The flat list in document order *)

Lemma scan_lines_entries lines st :
  let st' := foldl (fun s line => scan_line line s) st lines in
  tools st' = tools st ++ omap (line_entry (current_category st)) lines
  ∧ current_category st' = current_category st.
Proof.
  revert st. induction lines as [|line lines IH]; intros st; simpl.
  { by rewrite app_nil_r. }
  destruct (IH (scan_line line st)) as [Et Ec]. rewrite Et, Ec.
  unfold scan_line, line_entry.
  destruct (tool_match line) as [m|]; simpl; [|done].
  by rewrite <- app_assoc.
Qed.

Lemma scan_section_entries section st :
  tools (scan_section section st)
    = tools st ++ section_entries (current_category st) section
  ∧ current_category (scan_section section st)
    = section_category (current_category st) section.
Proof.
  unfold scan_section, section_entries, section_category, heading_name.
  destruct (split_lines section) as [|first others] eqn:E.
  { simpl. destruct (decide _); simpl; by rewrite ?app_nil_r. }
  set (st1 := match category_match first with
              | Some g => set_current_category (strip g) st
              | None => st
              end).
  assert (E1 : tools st1 = tools st
               ∧ current_category st1
                 = default (current_category st) (strip <$> category_match first)).
  { subst st1. by destruct (category_match first). }
  destruct E1 as [Et Ec]. rewrite <- Ec.
  destruct (decide (current_category st1 ∈ excluded)).
  - by rewrite Et, app_nil_r.
  - destruct (scan_lines_entries (first :: others) st1) as [Et' Ec'].
    by rewrite Et', Ec', Et.
Qed.

Lemma scan_sections_entries sections st :
  tools (scan_sections sections st)
  = tools st ++ document_entries (current_category st) sections.
Proof.
  revert st. induction sections as [|section sections IH]; intros st; simpl.
  { by rewrite app_nil_r. }
  unfold scan_sections in *. simpl. rewrite IH.
  destruct (scan_section_entries section st) as [-> ->].
  by rewrite <- app_assoc.
Qed.

Lemma parse_document_order_aux content :
  (parse content).1 = document_entries (str "General") (re_split_sections content).
Proof. rewrite parse_scan. simpl. by rewrite scan_sections_entries. Qed.

(** X5.  The flat list of a document is made section by section in
    document order, and line by line within a section.  A section takes
    the trimmed heading text of its first line as category and keeps the
    category of the section before it when that line gives none (the
    first falls back on General); a section with an excluded name gives
    nothing; every other line of the entry pattern gives one record under
    the section's category. *)
Theorem parse_document_order content :
  (parse content).1 = document_entries (str "General") (re_split_sections content).
Proof. apply parse_document_order_aux. Qed.

(** ** Stored descriptions *)

Lemma drop_while_snoc_stop {A} (p : A -> bool) l x :
  p x = false -> drop_while p (l ++ [x]) = drop_while p l ++ [x].
Proof.
  intros Hx. induction l as [|y l IH]; simpl; [by rewrite Hx|].
  by destruct (p y).
Qed.

Lemma strip_head s c r : strip s = c :: r -> isspace c = false.
Proof.
  unfold strip, rstrip, lstrip.
  destruct (drop_while isspace s) as [|x u] eqn:E; [done|].
  apply drop_while_stops in E. simpl.
  rewrite drop_while_snoc_stop, rev_unit by done. by intros [= <- _].
Qed.

Lemma sub_details_prefix d : sub_details d `prefix_of` d.
Proof.
  induction d as [|c d IH]; [done|].
  change (sub_details (c :: d))
    with (if startswith (str "<details>") (c :: d) then [] else c :: sub_details d).
  destruct (startswith _ _); [apply prefix_nil|by apply prefix_cons].
Qed.

Lemma clean_description_head rest c r :
  clean_description rest = c :: r -> isspace c = false.
Proof.
  unfold clean_description.
  set (d := if startswith (str "- ") (strip rest)
            then strip (drop 2 (strip rest)) else strip rest).
  intros E. destruct (sub_details_prefix d) as [k Hk]. rewrite E in Hk.
  subst d. destruct (startswith _ _); by eapply strip_head.
Qed.

Lemma truncate_head d c r : truncate d = c :: r -> ∃ r', d = c :: r'.
Proof.
  unfold truncate. destruct (Nat.ltb_spec 300 (length d)); [|eauto].
  destruct d as [|x d]; [simpl in *; lia|]. simpl. intros [= <- _]. eauto.
Qed.

Lemma truncate_length d : length (truncate d) ≤ 303.
Proof.
  unfold truncate. destruct (Nat.ltb_spec 300 (length d)); [|lia].
  rewrite length_app, length_take. change (length (str "...")) with 3. lia.
Qed.

Lemma contains_app_false p a b : contains p (a ++ b) = false -> contains p a = false.
Proof.
  intros H. destruct (contains p a) eqn:E; [|done].
  apply contains_spec in E as (l & r & ->).
  assert (C : contains p ((l ++ p ++ r) ++ b) = true).
  { apply contains_spec. exists l, (r ++ b). by rewrite <- !app_assoc. }
  congruence.
Qed.

Lemma startswith_prefix p a b :
  startswith p a = true -> a `prefix_of` b -> startswith p b = true.
Proof.
  intros H [k ->]. apply startswith_spec in H as [r ->].
  apply startswith_spec. exists (r ++ k). by rewrite <- app_assoc.
Qed.

Lemma sub_details_clean d : contains (str "<details>") (sub_details d) = false.
Proof.
  induction d as [|c d IH]; [done|].
  change (sub_details (c :: d))
    with (if startswith (str "<details>") (c :: d) then [] else c :: sub_details d).
  destruct (startswith _ (c :: d)) eqn:E; [done|].
  change (contains (str "<details>") (c :: sub_details d))
    with (startswith (str "<details>") (c :: sub_details d)
          || contains (str "<details>") (sub_details d)).
  rewrite IH, orb_false_r.
  destruct (startswith _ (c :: sub_details d)) eqn:F; [|done].
  rewrite (startswith_prefix _ _ (c :: d) F) in E; [done|].
  apply prefix_cons, sub_details_prefix.
Qed.

(** The three dots of the cap cannot complete a details tag. *)
Lemma contains_details_dots d :
  contains (str "<details>") d = false ->
  contains (str "<details>") (d ++ str "...") = false.
Proof.
  induction d as [|c d IH]; intros H; [done|].
  change (contains (str "<details>") (c :: d))
    with (startswith (str "<details>") (c :: d) || contains (str "<details>") d) in H.
  apply orb_false_iff in H as [H1 H2].
  change (contains (str "<details>") ((c :: d) ++ str "..."))
    with (startswith (str "<details>") (c :: d ++ str "...")
          || contains (str "<details>") (d ++ str "...")).
  rewrite (IH H2), orb_false_r. revert H1. clear.
  destruct d as [|c1 [|c2 [|c3 [|c4 [|c5 [|c6 [|c7 [|c8 d]]]]]]]];
    cbn [startswith str list_ascii_of_string List.map N_of_ascii app];
    cbn [N.eqb Pos.eqb]; rewrite ?andb_false_r, ?andb_true_r; congruence.
Qed.

Lemma truncate_clean d :
  contains (str "<details>") d = false ->
  contains (str "<details>") (truncate d) = false.
Proof.
  intros H. unfold truncate. destruct (300 <? length d); [|done].
  apply contains_details_dots. apply (contains_app_false _ _ (drop 300 d)).
  by rewrite take_drop.
Qed.

Lemma parse_description content t :
  t ∈ (parse content).1 ->
  ∃ rest, description t = truncate (clean_description rest).
Proof.
  intros Ht. apply parse_valid in Ht as (_ & _ & _ & _ & line & m & _ & E).
  destruct m as [[[g1 g2] g3] rest]. exists rest. by rewrite E.
Qed.

(** X6.  The description of every record of every document is at most
    303 characters long. *)
Theorem description_bounded content t :
  t ∈ (parse content).1 -> length (description t) ≤ 303.
Proof.
  intros Ht. apply parse_description in Ht as [rest ->]. apply truncate_length.
Qed.

Lemma description_bounded_witness :
  length (description (toolA (str "General"))) ≤ 303.
Proof.
  apply (description_bounded example_document). vm_compute. left.
Defined.

(** X7.  No stored description holds the opening details tag: the text
    from the first such tag on is cut, and the cap with its three dots
    cannot bring one back. *)
Theorem description_without_details content t :
  t ∈ (parse content).1 -> contains (str "<details>") (description t) = false.
Proof.
  intros Ht. apply parse_description in Ht as [rest ->].
  apply truncate_clean. unfold clean_description. apply sub_details_clean.
Qed.

Lemma description_without_details_witness :
  contains (str "<details>")
    (description {| name := str "HiCCUPS"; url := str "http://h.example";
                    category := str "Callers"; description := str "loops ";
                    id := [] |}) = false.
Proof.
  apply (description_without_details details_document). vm_compute. left.
Defined.

(** X8.  No stored description starts with white space; the text before
    a details tag keeps its trailing white space, so a description may
    end with some. *)
Theorem description_no_leading_space content t c r :
  t ∈ (parse content).1 -> description t = c :: r -> isspace c = false.
Proof.
  intros Ht E. apply parse_description in Ht as [rest Hd]. rewrite Hd in E.
  apply truncate_head in E as [r' E]. by eapply clean_description_head.
Qed.

Lemma description_no_leading_space_witness : isspace 108%N = false.
Proof.
  apply (description_no_leading_space details_document
           {| name := str "HiCCUPS"; url := str "http://h.example";
              category := str "Callers"; description := str "loops ";
              id := [] |} 108%N (str "oops ")).
  - vm_compute. left.
  - reflexivity.
Defined.

(** ** What is never recorded *)

Lemma parse_indexed content c :
  (parse content).2 !! c = bucket c (parse content).1.
Proof.
  rewrite parse_scan. simpl.
  apply (indexed_scan_sections _ start). intros c'. done.
Qed.

Lemma bucket_None c l :
  (∀ t, t ∈ l -> category t ≠ c) -> bucket c l = None.
Proof.
  intros H. unfold bucket.
  destruct (List.filter _ l) as [|t l'] eqn:F; [done|]. exfalso.
  assert (Ht : In t (List.filter (fun t => bool_decide (category t = c)) l))
    by (rewrite F; by left).
  apply List.filter_In in Ht as [Ht Hc]. apply bool_decide_eq_true in Hc.
  apply list_elem_of_In in Ht. by apply (H t).
Qed.

(** X9.  Neither output of any document mentions an excluded name: no
    record has the category Table of content or How to View This README,
    and neither is a key of the index.  This covers the sections after an
    excluded one that have no heading text of their own. *)
Theorem excluded_never_recorded content c :
  c ∈ excluded ->
  (∀ t, t ∈ (parse content).1 -> category t ≠ c)
  ∧ (parse content).2 !! c = None.
Proof.
  intros Hc.
  assert (H : ∀ t, t ∈ (parse content).1 -> category t ≠ c).
  { intros t Ht E. apply parse_valid in Ht as (_ & _ & _ & N & _).
    apply N. by rewrite E. }
  split; [exact H|]. rewrite parse_indexed. by apply bucket_None.
Qed.

Lemma excluded_never_recorded_witness :
  (∀ t, t ∈ (parse toc_carried_document).1 -> category t ≠ str "Table of content")
  ∧ (parse toc_carried_document).2 !! str "Table of content" = None.
Proof.
  apply (excluded_never_recorded toc_carried_document (str "Table of content")).
  vm_compute. left.
Defined.

Example toc_carried_document_parse :
  (parse toc_carried_document).1 = [toolA (str "Aligners")].
Proof. vm_compute. reflexivity. Qed.

(** X10.  A document in which no line of any section has the shape of an
    entry gives the empty list and the empty index. *)
Theorem no_entries_no_records content :
  (∀ section line, section ∈ re_split_sections content ->
                   line ∈ split_lines section -> tool_match line = None) ->
  parse content = ([], ∅).
Proof.
  intros H.
  assert (E : (parse content).1 = []).
  { rewrite parse_document_order_aux. revert H.
    generalize (str "General"). 
    induction (re_split_sections content) as [|section sections IH];
      intros current H; simpl; [done|].
    rewrite IH by (intros s l Hs; apply H; by right).
    rewrite app_nil_r. unfold section_entries.
    destruct (decide _); [done|].
    assert (Hl : ∀ line, line ∈ split_lines section -> tool_match line = None)
      by (intros l; apply H; left).
    revert Hl. generalize (section_category current section).
    induction (split_lines section) as [|line lines IHl]; intros c Hl; [done|].
    simpl. unfold line_entry at 1. rewrite (Hl line) by left. simpl.
    apply IHl. intros l Hin. apply Hl. by right. }
  destruct (parse content) as [ts cs] eqn:P. simpl in E. subst ts.
  f_equal. apply map_eq. intros c.
  pose proof (parse_indexed content c) as I. rewrite P in I. simpl in I.
  by rewrite I, lookup_empty.
Qed.

Lemma no_entries_no_records_witness : parse prose_document = ([], ∅).
Proof.
  apply no_entries_no_records. intros section line Hs Hl.
  vm_compute in Hs.
  repeat (apply elem_of_cons in Hs as [->|Hs];
          [vm_compute in Hl;
           repeat (apply elem_of_cons in Hl as [->|Hl]; [by vm_compute|]);
           by apply elem_of_nil in Hl|]).
  by apply elem_of_nil in Hs.
Defined.

(** ** All or nothing *)

Lemma parse_readme_cases fault fs :
  (∃ e, parse_readme fault fs = ([str "Error parsing README: " ++ e], ([], ∅)))
  ∨ (∃ content, fs = ReadOk content ∧ parse_readme fault fs = ([], parse content)).
Proof.
  destruct (try_body fault fs initial) as [[result|e] w] eqn:E.
  - right. destruct (parse_readme_complete _ _ _ _ E) as (content & -> & _ & P).
    eauto.
  - left. exists e. unfold parse_readme. by rewrite E.
Qed.

(** X11.  Whatever faults strike and whatever the read gives,
    [parse_readme] has one of two outcomes: one error message with the
    empty list and the empty index, or no message with the records and
    the index of the whole document.  It never returns a part of the
    records, and never reports an error beside a result. *)
Theorem parse_readme_all_or_nothing fault fs :
  (∃ e, parse_readme fault fs = ([str "Error parsing README: " ++ e], ([], ∅)))
  ∨ (∃ content, fs = ReadOk content ∧ parse_readme fault fs = ([], parse content)).
Proof. apply parse_readme_cases. Qed.

(** ** The numbers and the options of the page *)

Lemma parse_readme_indexed fault fs c :
  (parse_readme fault fs).2.2 !! c = bucket c (parse_readme fault fs).2.1.
Proof.
  destruct (parse_readme_cases fault fs) as [[e ->]|(content & _ & ->)]; [done|].
  apply parse_indexed.
Qed.

Lemma bucket_is_Some c l :
  is_Some (bucket c l) ↔ ∃ t, t ∈ l ∧ category t = c.
Proof.
  split.
  - intros [records E]. apply bucket_Some in E as [-> N].
    destruct (List.filter _ l) as [|t l'] eqn:F; [done|].
    assert (Ht : In t (List.filter (fun t => bool_decide (category t = c)) l))
      by (rewrite F; by left).
    apply List.filter_In in Ht as [Ht Hc]. apply bool_decide_eq_true in Hc.
    exists t. by rewrite list_elem_of_In.
  - intros (t & Ht & Hc). destruct (bucket c l) as [records|] eqn:E; [eauto|].
    exfalso. unfold bucket in E.
    assert (Hin : In t (List.filter (fun t => bool_decide (category t = c)) l)).
    { apply List.filter_In. rewrite <- list_elem_of_In, bool_decide_eq_true. done. }
    by destruct (List.filter _ l).
Qed.

Lemma bucket_default c l :
  default [] (bucket c l) = List.filter (fun t => bool_decide (category t = c)) l.
Proof. unfold bucket. by destruct (List.filter _ l). Qed.

Lemma str_leb_refl a : str_leb a a = true.
Proof.
  induction a as [|x a IH]; simpl; [done|].
  by rewrite N.eqb_refl, IH, orb_true_r.
Qed.

Lemma str_leb_total a b : str_leb a b = true ∨ str_leb b a = true.
Proof.
  revert b. induction a as [|x a IH]; intros [|y b]; simpl; auto.
  destruct (N.lt_trichotomy x y) as [L|[->|L]].
  - left. apply N.ltb_lt in L. by rewrite L.
  - rewrite N.eqb_refl, N.ltb_irrefl. simpl. apply IH.
  - right. apply N.ltb_lt in L. by rewrite L.
Qed.

Lemma str_leb_trans a b c :
  str_leb a b = true -> str_leb b c = true -> str_leb a c = true.
Proof.
  revert b c. induction a as [|x a IH]; intros [|y b] [|z c]; simpl; try done.
  rewrite !orb_true_iff, !andb_true_iff, !N.ltb_lt, !N.eqb_eq.
  intros [L1|[-> H1]] [L2|[-> H2]].
  - left. lia.
  - by left.
  - by left.
  - right. split; [done|]. by apply (IH b).
Qed.

Lemma str_leb_antisym a b : str_leb a b = true -> str_leb b a = true -> a = b.
Proof.
  revert b. induction a as [|x a IH]; intros [|y b]; simpl; try done.
  rewrite !orb_true_iff, !andb_true_iff, !N.ltb_lt, !N.eqb_eq.
  intros [L1|[-> H1]] [L2|[E H2]]; try lia.
  f_equal. by apply IH.
Qed.

#[export] Instance str_le_total : Total str_le.
Proof. intros a b. apply str_leb_total. Qed.

#[export] Instance str_le_trans : Transitive str_le.
Proof. intros a b c. apply str_leb_trans. Qed.

(** X12.  The options of the category select box are All followed by
    the keys of the index, each once, in increasing order of Python's
    string comparison. *)
Theorem all_categories_sorted categories :
  ∃ keys, all_categories categories = str "All" :: keys
          ∧ (∀ c, c ∈ keys ↔ is_Some (categories !! c))
          ∧ NoDup keys
          ∧ StronglySorted str_le keys
          ∧ (∀ i j a b, keys !! i = Some a -> keys !! j = Some b -> i < j ->
               str_leb a b = true ∧ a ≠ b).
Proof.
  exists (merge_sort str_le (elements (dom categories))).
  pose proof (merge_sort_Permutation str_le (elements (dom categories))) as P.
  assert (S : StronglySorted str_le (merge_sort str_le (elements (dom categories))))
    by apply (StronglySorted_merge_sort str_le).
  assert (D : NoDup (merge_sort str_le (elements (dom categories))))
    by (rewrite P; apply NoDup_elements).
  split; [done|]. split; [|split; [done|split; [done|]]].
  - intros c. by rewrite P, elem_of_elements, elem_of_dom.
  - intros i j a b Hi Hj Hij. split.
    + revert S i j a b Hi Hj Hij. generalize (merge_sort str_le (elements (dom categories))).
      intros keys S. induction S as [|k keys S IH F]; intros i j a b Hi Hj Hij; [done|].
      destruct j as [|j]; [lia|]. simpl in Hj. destruct i as [|i].
      * injection Hi as <-. apply (proj1 (Forall_forall _ _) F).
        by eapply list_elem_of_lookup_2.
      * simpl in Hi. apply (IH i j); [done|done|lia].
    + intros <-. pose proof (proj1 (NoDup_alt _) D i j a Hi Hj). lia.
Qed.

Example all_categories_example :
  all_categories (parse (unlines [str "# T"; str "## Zeta"; str "- [z](u)";
                                  str "## Alpha"; str "- [a](u)";
                                  str "## Zeta"; str "- [q](u)"])).2
  = [str "All"; str "Alpha"; str "Zeta"].
Proof. vm_compute. reflexivity. Qed.

Lemma filter_comm {A} (f g : A -> bool) l :
  List.filter f (List.filter g l) = List.filter g (List.filter f l).
Proof.
  rewrite !filter_filter. apply List.filter_ext. intros x. apply andb_comm.
Qed.

(** X13.  For the outputs of [parse_readme], the number in the third
    box is the number of records the category selection alone keeps; the
    records shown for any search text are never more. *)
Theorem showing_counts_category lower fault fs q c :
  let '(tools, categories) := (parse_readme fault fs).2 in
  filtered_count tools categories c = length (filter_tools lower tools [] c)
  ∧ length (filter_tools lower tools q c) ≤ filtered_count tools categories c.
Proof.
  pose proof (parse_readme_indexed fault fs c) as I.
  destruct (parse_readme fault fs).2 as [ts cs]. simpl in I.
  assert (E : filtered_count ts cs c = length (filter_tools lower ts [] c)).
  { unfold filtered_count, filter_tools. destruct (decide _); [|done].
    by rewrite I, bucket_default. }
  split; [done|]. rewrite E. unfold filter_tools.
  destruct q as [|a q]; [done|].
  destruct (decide _); [|apply List.filter_length_le].
  rewrite filter_comm. apply List.filter_length_le.
Qed.

(** X14.  For the outputs of [parse_readme], the number of categories
    shown is the number of distinct category values among the
    records. *)
Theorem categories_count_distinct fault fs :
  let '(tools, categories) := (parse_readme fault fs).2 in
  size categories = length (remove_dups (List.map category tools)).
Proof.
  pose proof (parse_readme_indexed fault fs) as I.
  destruct (parse_readme fault fs).2 as [ts cs]. simpl in I.
  rewrite <- (size_dom cs).
  assert (E : dom cs = list_to_set (C := gset pystr) (remove_dups (List.map category ts))).
  { apply set_eq. intros c.
    rewrite elem_of_dom, I, bucket_is_Some, elem_of_list_to_set, elem_of_remove_dups.
    change (List.map category ts) with (category <$> ts).
    rewrite list_elem_of_fmap. split.
    - intros (t & Ht & <-). by exists t.
    - intros (t & -> & Ht). by exists t. }
  rewrite E. apply size_list_to_set, NoDup_remove_dups.
Qed.

(** ** The page *)

(** X15.  When [parse_readme] found records and the search box is empty,
    every option of the category select box shows something: the page is
    never the no-match warning, no error is reported, and the number of
    records shown is the number in the third box. *)
Theorem offered_category_shows lower set_list fault fs c mode :
  (parse_readme fault fs).2.1 ≠ [] ->
  c ∈ all_categories (parse_readme fault fs).2.2 ->
  ∃ s view, main lower set_list fault fs [] c mode = ([], Showing s (showing s) view)
            ∧ 0 < showing s.
Proof.
  intros Hne Hc. pose proof (parse_readme_indexed fault fs c) as I.
  unfold main.
  destruct (parse_readme_cases fault fs) as [[e E]|(content & _ & E)];
    rewrite E in *; [done|].
  destruct (parse content) as [ts cs]. simpl in *.
  destruct ts as [|t ts']; [done|].
  set (ts := t :: ts') in *.
  assert (F : filter_tools lower ts [] c ≠ []
              ∧ filtered_count ts cs c = length (filter_tools lower ts [] c)).
  { unfold filter_tools, filtered_count. destruct (decide (c ≠ str "All")) as [N|N].
    - rewrite I, bucket_default. split; [|done].
      apply elem_of_cons in Hc as [->|Hc]; [done|].
      rewrite merge_sort_Permutation, elem_of_elements, elem_of_dom, I in Hc.
      apply bucket_is_Some in Hc as (t0 & Ht0 & Hc0).
      intros Z.
      assert (Hin : In t0 (List.filter (fun t => bool_decide (category t = c)) ts)).
      { apply List.filter_In. rewrite <- list_elem_of_In, bool_decide_eq_true. done. }
      by rewrite Z in Hin.
    - done. }
  destruct F as [F1 F2].
  destruct (filter_tools lower ts [] c) as [|x l] eqn:Ef; [done|].
  eexists _, _. split.
  - f_equal. f_equal. simpl. by rewrite F2.
  - simpl. rewrite F2. simpl. lia.
Qed.

Lemma offered_category_shows_witness :
  ∃ s view,
    main ascii_lower remove_dups no_fault
      (ReadOk (str "# Tools" ++ LF :: example_document)) [] (str "Aligners") Table
    = ([], Showing s (showing s) view)
    ∧ 0 < showing s.
Proof.
  apply (offered_category_shows ascii_lower remove_dups no_fault
           (ReadOk (str "# Tools" ++ LF :: example_document)) (str "Aligners") Table).
  - vm_compute. discriminate.
  - vm_compute. right. left.
Defined.

(** X16.  Whenever [parse_readme] reports an error, the page is the
    no-tools page and exactly two errors are shown: the one of the parser
    and the advice to check the README. *)
Theorem error_then_no_tools_page lower set_list fault fs q c mode :
  (parse_readme fault fs).1 ≠ [] ->
  ∃ e, main lower set_list fault fs q c mode =
       ([str "Error parsing README: " ++ e;
         str "No tools found. Please check if README.md is available."],
        NoToolsFound).
Proof.
  intros H. unfold main.
  destruct (parse_readme_cases fault fs) as [[e E]|(content & _ & E)];
    rewrite E in *; [|done].
  by exists e.
Qed.

Lemma error_then_no_tools_page_witness :
  ∃ e, main ascii_lower remove_dups no_fault (ReadFail (str "No such file"))
         (str "x") (str "All") Cards =
       ([str "Error parsing README: " ++ e;
         str "No tools found. Please check if README.md is available."],
        NoToolsFound).
Proof.
  apply (error_then_no_tools_page ascii_lower remove_dups no_fault
           (ReadFail (str "No such file"))).
  vm_compute. discriminate.
Defined.

(** A readable document without entries gets the same page, with the
    advice alone. *)
Example empty_catalogue_page :
  main ascii_lower remove_dups no_fault (ReadOk prose_document) [] (str "All") Cards
  = ([str "No tools found. Please check if README.md is available."], NoToolsFound).
Proof. vm_compute. reflexivity. Qed.

(** ** The board *)

Lemma filter_tools_category lower tools q c t :
  c ≠ str "All" -> t ∈ filter_tools lower tools q c -> category t = c.
Proof.
  intros N. unfold filter_tools. rewrite decide_True by done.
  rewrite list_elem_of_In, List.filter_In, bool_decide_eq_true. tauto.
Qed.

Lemma filter_all_in {A} (f : A -> bool) l :
  (∀ x, x ∈ l -> f x = true) -> List.filter f l = l.
Proof.
  induction l as [|x l IH]; intros H; simpl; [done|].
  rewrite (H x) by left. rewrite IH; [done|]. intros y Hy. apply H. by right.
Qed.

Section Board.
Variable lower : pystr -> pystr.
Variable set_list : list pystr -> list pystr.
(** The list of a set holds the elements of the set, each once. *)
Hypothesis set_list_elem : ∀ l x, x ∈ set_list l ↔ x ∈ l.
Hypothesis set_list_NoDup : ∀ l, NoDup (set_list l).

Lemma kanban_categories_from_tools tools q selected c :
  filter_tools lower tools q selected ≠ [] ->
  c ∈ kanban_categories set_list (filter_tools lower tools q selected) selected ->
  ∃ t, t ∈ filter_tools lower tools q selected ∧ category t = c.
Proof.
  intros Hne. unfold kanban_categories. destruct (decide _) as [E|N].
  - intros Hc. apply subseteq_take in Hc.
    apply (proj1 (set_list_elem _ _)) in Hc.
    change (c ∈ category <$> filter_tools lower tools q selected) in Hc.
    apply list_elem_of_fmap in Hc as (t & -> & Ht). eauto.
  - intros Hc. apply list_elem_of_singleton in Hc as ->.
    destruct (filter_tools lower tools q selected) as [|t l] eqn:F; [done|].
    exists t. split; [left|].
    apply (filter_tools_category lower tools q); [done|]. rewrite F. left.
Qed.

(** X17.  Whenever the board is drawn (the filtered list is not empty),
    it has between one and six columns with distinct categories, so
    [st.columns] is never asked for zero columns; every column has
    between one and ten cards, each made from a filtered record of the
    column's category, with the first 100 characters of its description
    followed by three dots. *)
Theorem kanban_board_bounds tools q selected :
  filter_tools lower tools q selected ≠ [] ->
  let board := kanban_board set_list (filter_tools lower tools q selected) selected in
  0 < length board ≤ 6
  ∧ NoDup board.*1
  ∧ ∀ c cards, (c, cards) ∈ board ->
      0 < length cards ≤ 10
      ∧ ∀ card, card ∈ cards ->
          ∃ t, t ∈ filter_tools lower tools q selected ∧ category t = c
               ∧ card_name card = name t ∧ card_url card = url t
               ∧ card_snippet card = take 100 (description t) ++ str "...".
Proof.
  intros Hne. cbv zeta. unfold kanban_board.
  set (filtered := filter_tools lower tools q selected) in *.
  split; [|split].
  - rewrite length_map. unfold kanban_categories. destruct (decide _); [|simpl; lia].
    rewrite length_take. split; [|lia].
    destruct filtered as [|t l] eqn:F; [done|].
    assert (Hin : category t ∈ set_list (List.map category (t :: l)))
      by (apply set_list_elem; left).
    destruct (set_list _); [by apply elem_of_nil in Hin|simpl; lia].
  - change (NoDup ((List.map (fun c => (c, kanban_column filtered c))
                      (kanban_categories set_list filtered selected)).*1)).
    replace ((List.map (fun c => (c, kanban_column filtered c))
                (kanban_categories set_list filtered selected)).*1)
      with (kanban_categories set_list filtered selected).
    2:{ induction (kanban_categories set_list filtered selected) as [|x l IH];
          simpl; [done|]. by f_equal. }
    unfold kanban_categories. destruct (decide _).
    + apply (sublist_NoDup _ (set_list (List.map category filtered)));
        [apply set_list_NoDup|apply sublist_take].
    + apply NoDup_singleton.
  - intros c cards Hin.
    change (List.map (fun c => (c, kanban_column filtered c))
              (kanban_categories set_list filtered selected))
      with ((fun c => (c, kanban_column filtered c))
              <$> kanban_categories set_list filtered selected) in Hin.
    apply list_elem_of_fmap in Hin as (c' & [= -> ->] & Hc).
    destruct (kanban_categories_from_tools tools q selected c' Hne Hc)
      as (t & Ht & Hcat).
    unfold kanban_column.
    set (column := List.filter (fun t => bool_decide (category t = c')) filtered).
    assert (Hcol : t ∈ column).
    { apply list_elem_of_In, List.filter_In.
      rewrite <- list_elem_of_In, bool_decide_eq_true. done. }
    split.
    + rewrite length_map, length_take. split; [|lia].
      destruct column; [by apply elem_of_nil in Hcol|simpl; lia].
    + intros card Hcard.
      change (List.map ?f ?l) with (f <$> l) in Hcard.
      apply list_elem_of_fmap in Hcard as (t' & -> & Ht').
      apply subseteq_take in Ht'.
      apply list_elem_of_In, List.filter_In in Ht' as [Hin' Hc'].
      apply bool_decide_eq_true in Hc'. apply list_elem_of_In in Hin'.
      exists t'. by repeat split.
Qed.
End Board.

Lemma kanban_board_bounds_witness :
  let board := kanban_board remove_dups
                 (filter_tools ascii_lower board_tools (str "tool") (str "All"))
                 (str "All") in
  0 < length board ≤ 6
  ∧ NoDup board.*1
  ∧ ∀ c cards, (c, cards) ∈ board ->
      0 < length cards ≤ 10
      ∧ ∀ card, card ∈ cards ->
          ∃ t, t ∈ filter_tools ascii_lower board_tools (str "tool") (str "All")
               ∧ category t = c
               ∧ card_name card = name t ∧ card_url card = url t
               ∧ card_snippet card = take 100 (description t) ++ str "...".
Proof.
  apply (kanban_board_bounds ascii_lower remove_dups
           (fun l x => elem_of_remove_dups l x) (fun l => NoDup_remove_dups l)
           board_tools (str "tool") (str "All")).
  vm_compute. discriminate.
Defined.

(** X18.  With a category selected, the board has one column, named by
    the selection, and it shows the first ten filtered records, in their
    order. *)
Theorem kanban_selected_column lower set_list tools q c :
  c ≠ str "All" ->
  kanban_board set_list (filter_tools lower tools q c) c =
    [(c, List.map (fun tool =>
                     {| card_name := name tool;
                        card_snippet := take 100 (description tool) ++ str "...";
                        card_url := url tool |})
                  (take 10 (filter_tools lower tools q c)))].
Proof.
  intros N. unfold kanban_board, kanban_categories, kanban_column.
  rewrite decide_False by done. simpl. do 4 f_equal.
  apply filter_all_in. intros t Ht. apply bool_decide_eq_true.
  by apply (filter_tools_category lower tools q).
Qed.

Lemma kanban_selected_column_witness :
  kanban_board remove_dups
    (filter_tools ascii_lower board_tools (str "tool") (str "Aligners"))
    (str "Aligners") =
    [(str "Aligners",
      List.map (fun tool =>
                  {| card_name := name tool;
                     card_snippet := take 100 (description tool) ++ str "...";
                     card_url := url tool |})
               (take 10 (filter_tools ascii_lower board_tools (str "tool")
                           (str "Aligners"))))].
Proof.
  apply (kanban_selected_column ascii_lower remove_dups board_tools
           (str "tool") (str "Aligners")).
  vm_compute. discriminate.
Defined.

(** ** More on the filter *)

Lemma filter_idem {A} (f : A -> bool) l :
  List.filter f (List.filter f l) = List.filter f l.
Proof.
  rewrite filter_filter. apply List.filter_ext. intros x. by destruct (f x).
Qed.

(** X19.  Filtering the result again with the same query and selection
    changes nothing. *)
Theorem filter_idempotent lower tools q c :
  filter_tools lower (filter_tools lower tools q c) q c
  = filter_tools lower tools q c.
Proof.
  unfold filter_tools. destruct q as [|a q], (decide _); try done.
  - apply filter_idem.
  - rewrite !filter_filter. apply List.filter_ext. intros t.
    by destruct (text_match lower (a :: q) t), (bool_decide (category t = c)).
  - apply filter_idem.
Qed.

(** X20.  The search ignores case: with a lower-casing that maps the
    empty string to itself, two queries with the same lower-casing keep
    the same records. *)
Theorem filter_case_insensitive lower tools q q' c :
  lower [] = [] -> lower q = lower q' ->
  filter_tools lower tools q c = filter_tools lower tools q' c.
Proof.
  intros H E. rewrite !filter_tools_included by done.
  apply List.filter_ext. intros t.
  unfold included, text_predicate. by rewrite E.
Qed.

Lemma filter_case_insensitive_witness :
  filter_tools ascii_lower board_tools (str "LONG") (str "All")
  = filter_tools ascii_lower board_tools (str "long") (str "All").
Proof.
  apply (filter_case_insensitive ascii_lower board_tools (str "LONG") (str "long"));
    reflexivity.
Defined.

(** X21.  Each record is judged on its own: the filter of two lists put
    end to end is the two filtered lists put end to end. *)
Theorem filter_tools_app lower tools tools' q c :
  filter_tools lower (tools ++ tools') q c
  = filter_tools lower tools q c ++ filter_tools lower tools' q c.
Proof.
  unfold filter_tools. destruct q as [|a q], (decide _);
    by rewrite ?List.filter_app.
Qed.

(** ** The shape of the fields *)

(** X22.  In every record of every document the name holds no closing
    bracket, the url no closing parenthesis and the id no double quote:
    the link text stops at the first closing bracket and the link target
    at the first closing parenthesis of the line. *)
Theorem fields_lack_delimiters content t :
  t ∈ (parse content).1 ->
  lacks RBRACK (name t) ∧ lacks RPAREN (url t) ∧ lacks QUOTE (id t).
Proof.
  intros Ht. apply parse_valid in Ht as (_ & _ & _ & _ & line & m & Hm & E).
  destruct m as [[[g1 g2] g3] rest]. rewrite E. simpl.
  apply tool_match_spec in Hm. destruct Hm; simpl; repeat split; try done.
  - constructor.
  - by destruct g1.
Qed.

Lemma fields_lack_delimiters_witness :
  let t := {| name := str "Hi-C"; url := str "https://w.example/Hi-C_(genomics";
              category := str "Reading"; description := str ") the method";
              id := [] |} in
  lacks RBRACK (name t) ∧ lacks RPAREN (url t) ∧ lacks QUOTE (id t).
Proof.
  apply (fields_lack_delimiters parenthesis_document). vm_compute. left.
Defined.

Lemma strip_parts s : ∃ l r, s = l ++ strip s ++ r.
Proof.
  unfold strip, rstrip, lstrip.
  exists (take_while isspace s),
         (rev (take_while isspace (rev (drop_while isspace s)))).
  rewrite <- rev_app_distr, take_drop_while, rev_involutive.
  by rewrite take_drop_while.
Qed.

Lemma strip_last s r c : strip s = r ++ [c] -> isspace c = false.
Proof.
  unfold strip, rstrip. intros E. apply (f_equal (@rev char)) in E.
  rewrite rev_involutive, rev_unit in E. by apply drop_while_stops in E.
Qed.

Lemma heading_name_shape section c :
  heading_name section = Some c ->
  lacks HASH c ∧ lacks LF c
  ∧ (∀ x r, c = x :: r -> isspace x = false)
  ∧ (∀ r x, c = r ++ [x] -> isspace x = false).
Proof.
  unfold heading_name, category_match.
  destruct (split_lines section) as [|first others]; [done|].
  pose proof (take_while_all (fun c => neqb c HASH && neqb c LF) first) as F.
  destruct (take_while _ first) as [|a g]; [done|].
  simpl. intros [= <-].
  destruct (strip_parts (a :: g)) as (l & r & E). rewrite E in F.
  apply Forall_app in F as [_ F]. apply Forall_app in F as [F _].
  repeat split.
  - eapply Forall_impl; [exact F|]. intros x Hx.
    apply andb_true_iff in Hx as [Hx _]. by apply neqb_true.
  - eapply Forall_impl; [exact F|]. intros x Hx.
    apply andb_true_iff in Hx as [_ Hx]. by apply neqb_true.
  - intros x r'. apply strip_head.
  - intros r' x. apply strip_last.
Qed.

(** X23.  The category of every record holds no hash sign and no
    newline, and neither starts nor ends with white space: a heading is
    cut at its first hash sign and trimmed. *)
Theorem category_shape content t :
  t ∈ (parse content).1 ->
  lacks HASH (category t) ∧ lacks LF (category t)
  ∧ (∀ x r, category t = x :: r -> isspace x = false)
  ∧ (∀ r x, category t = r ++ [x] -> isspace x = false).
Proof.
  intros Ht. apply parse_valid in Ht as (_ & _ & [E|(section & _ & E)] & _).
  - rewrite E. repeat split.
    + unfold lacks. repeat (apply Forall_cons; split; [done|]). by apply Forall_nil.
    + unfold lacks. repeat (apply Forall_cons; split; [done|]). by apply Forall_nil.
    + by intros x r [= <- _].
    + intros r x Hr. apply (f_equal (@rev char)) in Hr.
      rewrite rev_unit in Hr. by injection Hr as <- _.
  - by apply (heading_name_shape section).
Qed.

Lemma category_shape_witness :
  let c := str "Peak callers" in
  lacks HASH c ∧ lacks LF c
  ∧ (∀ x r, c = x :: r -> isspace x = false)
  ∧ (∀ r x, c = r ++ [x] -> isspace x = false).
Proof.
  apply (category_shape trailing_hash_document
           {| name := str "a"; url := str "b"; category := str "Peak callers";
              description := []; id := [] |}).
  vm_compute. left.
Defined.
